(** * Task Tracker CLI (task_cli.py): a shallow embedding and its properties

    The program keeps a list of tasks in [tasks.json] and offers the verbs
    add, update, delete, mark-in-progress, mark-done and list.

    Conventions of the embedding.
    - A Python [str] is the [string] of the bytes of its UTF-8 encoding; the
      storage file is the [string] of its bytes.
    - Python ints are [Z]; JSON documents are values of [Json.json].
    - A run is a function from a [world] (storage file, clock, trace of the
      prints and file writes) to an [outcome]: normal return, an uncaught
      Python exception, or [Unmodelled] where the run leaves the part of
      Python that is modelled (float values, non-ASCII text handed to
      [str.lower] or [int], text that cannot be encoded).
    - Interpreter resource limits (recursion depth, the optional bound on
      the digits of an int conversion, memory) are not modelled; the storage
      file can be written, and standard output accepts every line (as a
      UTF-8 terminal does for UTF-8 text). *)

From Stdlib Require Import List String Ascii ZArith NArith Lia Bool Sorted.
From Stdlib Require Import Decimal DecimalString DecimalFacts DecimalPos DecimalN DecimalZ.
Import ListNotations.

#[local] Open Scope list_scope.
#[local] Open Scope string_scope.

(** ** Text: bytes, character classes, UTF-8, [str.lower], [int], [str(int)] *)

Module Text.

Definition byte (c : ascii) : N := N_of_ascii c.

Definition in_range (lo hi : N) (c : ascii) : bool :=
  (lo <=? byte c)%N && (byte c <=? hi)%N.

Definition dquote : ascii := "034"%char.
Definition backslash : ascii := "092"%char.
Definition newline : ascii := "010"%char.

Definition str1 (c : ascii) : string := String c EmptyString.

Fixpoint str_map (f : ascii -> ascii) (s : string) : string :=
  match s with
  | EmptyString => EmptyString
  | String c r => String (f c) (str_map f r)
  end.

Fixpoint str_forall (p : ascii -> bool) (s : string) : bool :=
  match s with
  | EmptyString => true
  | String c r => p c && str_forall p r
  end.

Fixpoint repeat_str (s : string) (n : nat) : string :=
  match n with
  | O => EmptyString
  | S k => s ++ repeat_str s k
  end.

(** The UTF-8 codec in strict mode, as used by [open(..., encoding="utf-8")]:
    the well-formed byte sequences of the Unicode standard (no overlong
    forms, no surrogates, nothing above U+10FFFF). *)
Definition cont (c : ascii) : bool := in_range 128 191 c.

Fixpoint valid_utf8 (s : string) : bool :=
  match s with
  | EmptyString => true
  | String b0 r0 =>
    if (byte b0 <=? 127)%N then valid_utf8 r0
    else match r0 with
    | EmptyString => false
    | String b1 r1 =>
      if in_range 194 223 b0 then cont b1 && valid_utf8 r1
      else match r1 with
      | EmptyString => false
      | String b2 r2 =>
        if (byte b0 =? 224)%N then in_range 160 191 b1 && cont b2 && valid_utf8 r2
        else if in_range 225 236 b0 || in_range 238 239 b0
             then cont b1 && cont b2 && valid_utf8 r2
        else if (byte b0 =? 237)%N then in_range 128 159 b1 && cont b2 && valid_utf8 r2
        else match r2 with
        | EmptyString => false
        | String b3 r3 =>
          if (byte b0 =? 240)%N
          then in_range 144 191 b1 && cont b2 && cont b3 && valid_utf8 r3
          else if in_range 241 243 b0
          then cont b1 && cont b2 && cont b3 && valid_utf8 r3
          else if (byte b0 =? 244)%N
          then in_range 128 143 b1 && cont b2 && cont b3 && valid_utf8 r3
          else false
        end
      end
    end
  end.

(** The UTF-8 bytes of a code point (surrogates included: Python keeps a
    lone surrogate read from an escape in the [str]; such a text is not
    [valid_utf8]). *)
Definition chr (b : N) : ascii := ascii_of_N b.

Definition utf8_encode (cp : N) : string :=
  if (cp <? 128)%N then str1 (chr cp)
  else if (cp <? 2048)%N then
    String (chr (192 + cp / 64)) (str1 (chr (128 + cp mod 64)))
  else if (cp <? 65536)%N then
    String (chr (224 + cp / 4096))
      (String (chr (128 + (cp / 64) mod 64)) (str1 (chr (128 + cp mod 64))))
  else
    String (chr (240 + cp / 262144))
      (String (chr (128 + (cp / 4096) mod 64))
         (String (chr (128 + (cp / 64) mod 64)) (str1 (chr (128 + cp mod 64))))).

(** [str.lower()] on ASCII text; [None] on text with a non-ASCII byte, where
    Unicode case mapping applies. *)
Definition is_ascii (s : string) : bool :=
  str_forall (fun c => (byte c <? 128)%N) s.

Definition lower_char (c : ascii) : ascii :=
  if in_range 65 90 c then chr (byte c + 32) else c.

Definition str_lower (s : string) : option string :=
  if is_ascii s then Some (str_map lower_char s) else None.

(** [str(n)] for an int. *)
Definition str_of_int (n : Z) : string := NilZero.string_of_int (Z.to_int n).

(** [int(s)] for an ASCII [str]: surrounding whitespace, an optional sign,
    decimal digits with single underscores between them.  The whitespace of
    the conversion is tab, line feed, vertical tab, form feed, carriage
    return and space (bytes 9 to 13 and 32); the separators 28 to 31 are
    not, and [int] rejects a text that has one. *)
Inductive int_result : Type :=
| IntOk (n : Z)
| IntValueError
| IntUnmodelled.

Definition is_digit (c : ascii) : bool := in_range 48 57 c.
Definition digit_val (c : ascii) : Z := Z.of_N (byte c) - 48.

Definition is_space (c : ascii) : bool :=
  in_range 9 13 c || (byte c =? 32)%N.

Fixpoint lstrip (s : string) : string :=
  match s with
  | EmptyString => EmptyString
  | String c r => if is_space c then lstrip r else s
  end.

(** The text after a first digit: more digits, each optionally preceded by
    one underscore, then only whitespace. *)
Fixpoint int_digits (acc : Z) (s : string) : option Z :=
  match s with
  | EmptyString => Some acc
  | String c r =>
    if is_digit c then int_digits (10 * acc + digit_val c) r
    else if Ascii.eqb c "_" then
      match r with
      | String d r' =>
        if is_digit d then int_digits (10 * acc + digit_val d) r' else None
      | EmptyString => None
      end
    else if str_forall is_space s then Some acc else None
  end.

Definition int_unsigned (s : string) : option Z :=
  match s with
  | String d r => if is_digit d then int_digits (digit_val d) r else None
  | EmptyString => None
  end.

Definition py_int (s : string) : int_result :=
  if negb (is_ascii s) then IntUnmodelled
  else match lstrip s with
  | EmptyString => IntValueError
  | String c r =>
    let body := if Ascii.eqb c "-" || Ascii.eqb c "+" then r else String c r in
    match int_unsigned body with
    | Some n => IntOk (if Ascii.eqb c "-" then - n else n)
    | None => IntValueError
    end
  end.

(** [sep.join(parts)] *)
Definition join (sep : string) (parts : list string) : string :=
  String.concat sep parts.

End Text.

(** ** JSON: values, [json.dump(..., indent=2, ensure_ascii=False)], [json.load] *)

Module Json.
Import Text.

(** What [json.load] returns, floats apart: [None], bools, ints, strs,
    lists and dicts.  A dict is the list of its items in insertion order,
    with pairwise distinct keys (see [dict_set] and [distinct_keys]). *)
#[local] Unset Elimination Schemes.
Inductive json : Type :=
| JNull
| JBool (b : bool)
| JInt (n : Z)
| JStr (s : string)
| JArr (items : list json)
| JObj (fields : list (string * json)).
#[local] Set Elimination Schemes.

Definition dict : Type := list (string * json).

Fixpoint dict_get (k : string) (d : dict) : option json :=
  match d with
  | [] => None
  | (k', v) :: r => if String.eqb k' k then Some v else dict_get k r
  end.

(** [d[k] = v]: the value is replaced in place, a new key goes last. *)
Fixpoint dict_set (k : string) (v : json) (d : dict) : dict :=
  match d with
  | [] => [(k, v)]
  | (k', v') :: r =>
    if String.eqb k' k then (k', v) :: r else (k', v') :: dict_set k v r
  end.

Definition dict_of_pairs (kvs : list (string * json)) : dict :=
  fold_left (fun d kv => dict_set (fst kv) (snd kv) d) kvs [].

(** *** Encoder *)

Definition hex_digit (n : N) : ascii :=
  if (n <? 10)%N then chr (48 + n) else chr (87 + n).

(** ESCAPE_DCT of json.encoder: the short escapes, and [\u00XX] for the
    other control characters. *)
Definition escape_char (c : ascii) : string :=
  if Ascii.eqb c dquote then String backslash (str1 dquote)
  else if Ascii.eqb c backslash then String backslash (str1 backslash)
  else if Ascii.eqb c "008" then String backslash "b"
  else if Ascii.eqb c "012" then String backslash "f"
  else if Ascii.eqb c "010" then String backslash "n"
  else if Ascii.eqb c "013" then String backslash "r"
  else if Ascii.eqb c "009" then String backslash "t"
  else if (byte c <? 32)%N then
    String backslash
      ("u00" ++ String (hex_digit (byte c / 16)) (str1 (hex_digit (byte c mod 16))))
  else str1 c.

Fixpoint escape (s : string) : string :=
  match s with
  | EmptyString => EmptyString
  | String c r => escape_char c ++ escape r
  end.

Definition encode_basestring (s : string) : string :=
  String dquote (escape s ++ str1 dquote).

Definition newline_indent (level : nat) : string :=
  String newline (repeat_str "  " level).

(** [_iterencode] with [indent=2], item separator [","] and key separator
    [": "]; [level] is [_current_indent_level]. *)
Fixpoint encode (level : nat) (v : json) : string :=
  match v with
  | JNull => "null"
  | JBool true => "true"
  | JBool false => "false"
  | JInt n => str_of_int n
  | JStr s => encode_basestring s
  | JArr [] => "[]"
  | JArr items =>
    "[" ++ newline_indent (S level)
    ++ String.concat ("," ++ newline_indent (S level)) (map (encode (S level)) items)
    ++ newline_indent level ++ "]"
  | JObj [] => "{}"
  | JObj fields =>
    "{" ++ newline_indent (S level)
    ++ String.concat ("," ++ newline_indent (S level))
         (map (fun kv => encode_basestring (fst kv) ++ ": " ++ encode (S level) (snd kv))
              fields)
    ++ newline_indent level ++ "}"
  end.

Definition json_dumps (v : json) : string := encode 0 v.

(** *** Decoder *)

Inductive parse (A : Type) : Type :=
| Parsed (a : A) (rest : string)
| SyntaxError
| FloatValue.
Arguments Parsed {A} a rest.
Arguments SyntaxError {A}.
Arguments FloatValue {A}.

Definition parse_map {A B : Type} (f : A -> B) (p : parse A) : parse B :=
  match p with
  | Parsed a rest => Parsed (f a) rest
  | SyntaxError => SyntaxError
  | FloatValue => FloatValue
  end.

Definition is_ws (c : ascii) : bool :=
  Ascii.eqb c " " || Ascii.eqb c "009" || Ascii.eqb c "010" || Ascii.eqb c "013".

Fixpoint skip_ws (s : string) : string :=
  match s with
  | EmptyString => EmptyString
  | String c r => if is_ws c then skip_ws r else s
  end.

Fixpoint strip_prefix (p s : string) : option string :=
  match p with
  | EmptyString => Some s
  | String a p' =>
    match s with
    | String b s' => if Ascii.eqb a b then strip_prefix p' s' else None
    | EmptyString => None
    end
  end.

Definition hex_val (c : ascii) : option N :=
  if is_digit c then Some (byte c - 48)%N
  else if in_range 97 102 c then Some (byte c - 87)%N
  else if in_range 65 70 c then Some (byte c - 55)%N
  else None.

Definition hex4 (a b c d : ascii) : option N :=
  match hex_val a, hex_val b, hex_val c, hex_val d with
  | Some x, Some y, Some z, Some t => Some (((x * 16 + y) * 16 + z) * 16 + t)%N
  | _, _, _, _ => None
  end.

(** BACKSLASH of json.decoder *)
Definition unescape (e : ascii) : option ascii :=
  if Ascii.eqb e dquote then Some dquote
  else if Ascii.eqb e backslash then Some backslash
  else if Ascii.eqb e "/" then Some "/"%char
  else if Ascii.eqb e "b" then Some "008"%char
  else if Ascii.eqb e "f" then Some "012"%char
  else if Ascii.eqb e "n" then Some "010"%char
  else if Ascii.eqb e "r" then Some "013"%char
  else if Ascii.eqb e "t" then Some "009"%char
  else None.

(** [scanstring] in strict mode, from the character after the opening
    quote: the decoded text and the input after the closing quote. *)
Fixpoint scanstring (s : string) : parse string :=
  match s with
  | EmptyString => SyntaxError
  | String c r =>
    if Ascii.eqb c dquote then Parsed EmptyString r
    else if Ascii.eqb c backslash then
      match r with
      | EmptyString => SyntaxError
      | String e r1 =>
        if Ascii.eqb e "u" then
          match r1 with
          | String h1 (String h2 (String h3 (String h4 r5))) =>
            match hex4 h1 h2 h3 h4 with
            | None => SyntaxError
            | Some uni =>
              let single := parse_map (append (utf8_encode uni)) (scanstring r5) in
              if (55296 <=? uni)%N && (uni <=? 56319)%N then
                match r5 with
                | String b (String u r7) =>
                  if Ascii.eqb b backslash && Ascii.eqb u "u" then
                    match r7 with
                    | String k1 (String k2 (String k3 (String k4 r11))) =>
                      match hex4 k1 k2 k3 k4 with
                      | None => SyntaxError
                      | Some uni2 =>
                        if (56320 <=? uni2)%N && (uni2 <=? 57343)%N then
                          parse_map
                            (append (utf8_encode
                                       (65536 + (uni - 55296) * 1024 + (uni2 - 56320))))
                            (scanstring r11)
                        else single
                      end
                    | _ => SyntaxError
                    end
                  else single
                | _ => single
                end
              else single
            end
          | _ => SyntaxError
          end
        else
          match unescape e with
          | Some d => parse_map (String d) (scanstring r1)
          | None => SyntaxError
          end
      end
    else if (byte c <? 32)%N then SyntaxError
    else parse_map (String c) (scanstring r)
  end.

(** NUMBER_RE: an optional minus sign, then 0 or a nonzero digit followed by
    digits; a fraction or an exponent after it makes the number a float. *)
Definition push_digit (c : ascii) (u : uint) : uint :=
  match byte c with
  | 48%N => D0 u | 49%N => D1 u | 50%N => D2 u | 51%N => D3 u | 52%N => D4 u
  | 53%N => D5 u | 54%N => D6 u | 55%N => D7 u | 56%N => D8 u | _ => D9 u
  end.

Fixpoint lex_digits (s : string) : uint * string :=
  match s with
  | EmptyString => (Nil, EmptyString)
  | String c r =>
    if is_digit c then let (u, rest) := lex_digits r in (push_digit c u, rest)
    else (Nil, s)
  end.

Definition starts_digit (s : string) : bool :=
  match s with
  | String d _ => is_digit d
  | EmptyString => false
  end.

Definition float_tail (s : string) : bool :=
  match s with
  | String c r =>
    if Ascii.eqb c "." then starts_digit r
    else if Ascii.eqb c "e" || Ascii.eqb c "E" then
      match r with
      | String g r' =>
        if Ascii.eqb g "+" || Ascii.eqb g "-" then starts_digit r' else is_digit g
      | EmptyString => false
      end
    else false
  | EmptyString => false
  end.

(** The integer part from its first digit on. *)
Definition lex_int_part (s : string) : option (uint * string) :=
  match s with
  | String d r =>
    if Ascii.eqb d "0" then Some (D0 Nil, r)
    else if is_digit d then Some (lex_digits s)
    else None
  | EmptyString => None
  end.

Definition scan_number (s : string) : parse json :=
  let (negative, body) :=
    match s with
    | String c r => if Ascii.eqb c "-" then (true, r) else (false, s)
    | EmptyString => (false, s)
    end in
  match lex_int_part body with
  | Some (u, rest) =>
    if float_tail rest then FloatValue
    else Parsed (JInt (Z.of_int (if negative then Neg u else Pos u))) rest
  | None =>
    match strip_prefix "NaN" s, strip_prefix "Infinity" s, strip_prefix "-Infinity" s with
    | None, None, None => SyntaxError
    | _, _, _ => FloatValue
    end
  end.

Section Containers.
Variable scan : string -> parse json.

(** JSONArray after its first element position is reached; [n] bounds the
    number of elements. *)
Fixpoint array_loop (n : nat) (s : string) : parse (list json) :=
  match n with
  | O => SyntaxError
  | S n' =>
    match scan s with
    | Parsed v r =>
      match skip_ws r with
      | String c r' =>
        if Ascii.eqb c "]" then Parsed [v] r'
        else if Ascii.eqb c "," then
          parse_map (cons v) (array_loop n' (skip_ws r'))
        else SyntaxError
      | EmptyString => SyntaxError
      end
    | SyntaxError => SyntaxError
    | FloatValue => FloatValue
    end
  end.

Definition parse_array (r : string) : parse (list json) :=
  match skip_ws r with
  | EmptyString => SyntaxError
  | String c r' =>
    if Ascii.eqb c "]" then Parsed [] r'
    else array_loop (String.length r) (skip_ws r)
  end.

(** JSONObject from the character after the opening quote of a key. *)
Fixpoint object_loop (n : nat) (s : string) : parse (list (string * json)) :=
  match n with
  | O => SyntaxError
  | S n' =>
    match scanstring s with
    | Parsed key r =>
      match skip_ws r with
      | String c r1 =>
        if Ascii.eqb c ":" then
          match scan (skip_ws r1) with
          | Parsed v r3 =>
            match skip_ws r3 with
            | String d r4 =>
              if Ascii.eqb d "}" then Parsed [(key, v)] r4
              else if Ascii.eqb d "," then
                match skip_ws r4 with
                | String q r5 =>
                  if Ascii.eqb q dquote
                  then parse_map (cons (key, v)) (object_loop n' r5)
                  else SyntaxError
                | EmptyString => SyntaxError
                end
              else SyntaxError
            | EmptyString => SyntaxError
            end
          | SyntaxError => SyntaxError
          | FloatValue => FloatValue
          end
        else SyntaxError
      | EmptyString => SyntaxError
      end
    | SyntaxError => SyntaxError
    | FloatValue => FloatValue
    end
  end.

Definition parse_object (r : string) : parse (list (string * json)) :=
  match skip_ws r with
  | EmptyString => SyntaxError
  | String c r' =>
    if Ascii.eqb c "}" then Parsed [] r'
    else if Ascii.eqb c dquote then object_loop (String.length r) r'
    else SyntaxError
  end.
End Containers.

(** [scan_once]: one JSON value at the head of the input.  [fuel] bounds
    the nesting depth. *)
Fixpoint scan_once (fuel : nat) (s : string) : parse json :=
  match fuel with
  | O => SyntaxError
  | S f =>
    match s with
    | EmptyString => SyntaxError
    | String c r =>
      if Ascii.eqb c dquote then parse_map JStr (scanstring r)
      else if Ascii.eqb c "{" then
        parse_map (fun kvs => JObj (dict_of_pairs kvs)) (parse_object (scan_once f) r)
      else if Ascii.eqb c "[" then parse_map JArr (parse_array (scan_once f) r)
      else if Ascii.eqb c "n" then
        match strip_prefix "null" s with
        | Some rest => Parsed JNull rest
        | None => SyntaxError
        end
      else if Ascii.eqb c "t" then
        match strip_prefix "true" s with
        | Some rest => Parsed (JBool true) rest
        | None => SyntaxError
        end
      else if Ascii.eqb c "f" then
        match strip_prefix "false" s with
        | Some rest => Parsed (JBool false) rest
        | None => SyntaxError
        end
      else scan_number s
    end
  end.

(** [json.loads]: leading whitespace, one value, trailing whitespace, end
    of input. *)
Inductive loaded : Type :=
| Loaded (v : json)
| JSONDecodeError
| HasFloat.

Definition json_loads (s : string) : loaded :=
  match scan_once (S (String.length s)) (skip_ws s) with
  | Parsed v rest =>
    match skip_ws rest with
    | EmptyString => Loaded v
    | String _ _ => JSONDecodeError
    end
  | SyntaxError => JSONDecodeError
  | FloatValue => HasFloat
  end.

End Json.


(** ** Runs: the world, outcomes, and the monad of the command handlers *)

Import Text Json.

(** Uncaught Python exceptions that the program can raise. *)
Inductive exn : Type :=
| UnicodeDecodeError
| AttributeError
| TypeError
| KeyError.

(** What a run does to its environment: a line printed on standard output,
    or the storage file rewritten in full. *)
Inductive event : Type :=
| EPrint (line : string)
| EWrite (text : string).

(** [file]: the bytes of tasks.json, [None] when the file does not exist.
    [clock n] is the text that the [n]-th call of [now_iso] returns and
    [ticks] counts the calls made so far.  [trace] lists the events of the
    run, oldest first. *)
Record world : Type := mkWorld {
  file : option string;
  clock : nat -> string;
  ticks : nat;
  trace : list event
}.

Definition emit (e : event) (w : world) : world :=
  mkWorld (file w) (clock w) (ticks w) (trace w ++ [e]).

Definition emit_all (es : list event) (w : world) : world :=
  mkWorld (file w) (clock w) (ticks w) (trace w ++ es).

Definition write_file (text : string) (w : world) : world :=
  mkWorld (Some text) (clock w) (ticks w) (trace w ++ [EWrite text]).

Definition tick (w : world) : world :=
  mkWorld (file w) (clock w) (S (ticks w)) (trace w).

(** A value computed without effects, an exception, or a computation that
    leaves the modelled part of Python. *)
Inductive result (A : Type) : Type :=
| Val (a : A)
| Exn (e : exn)
| NoModel.
Arguments Val {A} a.
Arguments Exn {A} e.
Arguments NoModel {A}.

Definition rbind {A B : Type} (r : result A) (k : A -> result B) : result B :=
  match r with
  | Val a => k a
  | Exn e => Exn e
  | NoModel => NoModel
  end.

Inductive outcome (A : Type) : Type :=
| Ok (a : A) (w : world)
| Raise (e : exn) (w : world)
| Unmodelled.
Arguments Ok {A} a w.
Arguments Raise {A} e w.
Arguments Unmodelled {A}.

Definition M (A : Type) : Type := world -> outcome A.

Definition ret {A : Type} (a : A) : M A := fun w => Ok a w.

Definition bind {A B : Type} (m : M A) (k : A -> M B) : M B :=
  fun w =>
    match m w with
    | Ok a w' => k a w'
    | Raise e w' => Raise e w'
    | Unmodelled => Unmodelled
    end.

Definition lift {A : Type} (r : result A) : M A :=
  fun w =>
    match r with
    | Val a => Ok a w
    | Exn e => Raise e w
    | NoModel => Unmodelled
    end.

Definition unmodelled {A : Type} : M A := fun _ => Unmodelled.

Declare Scope run_scope.
Delimit Scope run_scope with run.
Notation "x <- m ;; k" := (bind m (fun x => k))
  (at level 61, m at next level, right associativity) : run_scope.
Notation "m ;; k" := (bind m (fun _ => k))
  (at level 61, right associativity) : run_scope.
Notation "x <~ r ;; k" := (rbind r (fun x => k))
  (at level 61, r at next level, right associativity) : run_scope.
#[local] Open Scope run_scope.

Definition print (line : string) : M unit := fun w => Ok tt (emit (EPrint line) w).

(** ** The program *)

Definition quoted (s : string) : string := String dquote (s ++ str1 dquote).

(** [now_iso] (line 36): the next reading of the clock. *)
Definition now_iso : M string := fun w => Ok (clock w (ticks w)) (tick w).

(** [load_tasks] (lines 40-52).  The file is opened as UTF-8 text and read
    by [json.load]; only [json.JSONDecodeError] is caught. *)
Definition load_tasks : M (list json) :=
  fun w =>
    match file w with
    | None => Ok [] w
    | Some bytes =>
      if negb (valid_utf8 bytes) then Raise UnicodeDecodeError w
      else
        match json_loads bytes with
        | Loaded (JArr data) => Ok data w
        | Loaded _ =>
          (print "Corrupt tasks file: expected a list. Resetting to empty." ;; ret []) w
        | JSONDecodeError =>
          (print "Corrupt JSON in tasks file. Resetting to empty." ;; ret []) w
        | HasFloat => Unmodelled
        end
    end.

(** [save_tasks] (lines 55-57).  A text that UTF-8 cannot encode (a lone
    surrogate) makes the write fail part-way; that run is not modelled. *)
Definition save_tasks (tasks : list json) : M unit :=
  fun w =>
    let text := json_dumps (JArr tasks) in
    if valid_utf8 text then Ok tt (write_file text w) else Unmodelled.

(** Python ints and bools compare and add as numbers. *)
Definition as_int (v : json) : option Z :=
  match v with
  | JInt n => Some n
  | JBool true => Some 1%Z
  | JBool false => Some 0%Z
  | _ => None
  end.

(** [v == n] for an int [n], and [v == s] for a str [s]. *)
Definition py_eq_int (v : json) (n : Z) : bool :=
  match as_int v with
  | Some m => (m =? n)%Z
  | None => false
  end.

Definition py_eq_str (v : json) (s : string) : bool :=
  match v with
  | JStr t => String.eqb t s
  | _ => false
  end.

(** [task.get(key, default)]: only a dict has the method. *)
Definition py_get (task : json) (key : string) (default : json) : result json :=
  match task with
  | JObj d =>
    Val match dict_get key d with
        | Some v => v
        | None => default
        end
  | _ => Exn AttributeError
  end.

(** [max] over the ids that follow a numeric running maximum [cur]. *)
Fixpoint max_ids (cur : Z) (tasks : list json) : result Z :=
  match tasks with
  | [] => Val cur
  | task :: rest =>
    v <~ py_get task "id" (JInt 0) ;;
    match as_int v with
    | Some n => max_ids (if (n >? cur)%Z then n else cur) rest
    | None => Exn TypeError
    end
  end.

(** [next_id] (lines 60-63).  When the first id is not a number and other
    tasks follow, the comparisons of [max] are between non-numbers and are
    not modelled. *)
Definition next_id (tasks : list json) : result Z :=
  match tasks with
  | [] => Val 1%Z
  | task :: rest =>
    v <~ py_get task "id" (JInt 0) ;;
    match as_int v with
    | Some n => m <~ max_ids n rest ;; Val (m + 1)%Z
    | None =>
      match rest with
      | [] => Exn TypeError
      | _ :: _ => NoModel
      end
    end
  end.

(** [find_task] (lines 66-70).  The task returned by the source is a
    reference to an element of [tasks]; here it is the position of that
    element together with the dict found there.  The callers test it with
    [not task], which holds of [None] and of the empty dict. *)
Fixpoint find_task (tasks : list json) (task_id : Z) : result (option (nat * dict)) :=
  match tasks with
  | [] => Val None
  | task :: rest =>
    v <~ py_get task "id" JNull ;;
    if py_eq_int v task_id then
      match task with
      | JObj d => Val (Some (O, d))
      | _ => Exn AttributeError
      end
    else
      found <~ find_task rest task_id ;;
      Val match found with
          | Some (i, d) => Some (S i, d)
          | None => None
          end
  end.

(** The list in which the element at position [i] is [v]. *)
Fixpoint list_set (i : nat) (v : json) (tasks : list json) : list json :=
  match tasks, i with
  | [], _ => []
  | _ :: rest, O => v :: rest
  | t :: rest, S j => t :: list_set j v rest
  end.

(** [cmd_add] (lines 73-90) *)
Definition cmd_add (args : list string) : M unit :=
  match args with
  | [] => print ("Usage: add " ++ quoted "description")
  | description :: _ =>
    tasks <- load_tasks ;;
    tid <- lift (next_id tasks) ;;
    ts <- now_iso ;;
    let task := JObj [("id", JInt tid); ("description", JStr description);
                      ("status", JStr "todo"); ("createdAt", JStr ts);
                      ("updatedAt", JStr ts)] in
    save_tasks (tasks ++ [task])%list ;;
    print ("Task added successfully (ID: " ++ str_of_int tid ++ ")")
  end.

(** [cmd_update] (lines 93-111) *)
Definition cmd_update (args : list string) : M unit :=
  match args with
  | tid_arg :: new_description :: _ =>
    match py_int tid_arg with
    | IntValueError => print "Invalid id. Id must be an integer."
    | IntUnmodelled => unmodelled
    | IntOk tid =>
      tasks <- load_tasks ;;
      found <- lift (find_task tasks tid) ;;
      match found with
      | Some (i, ((_ :: _) as d)) =>
        let d1 := dict_set "description" (JStr new_description) d in
        ts <- now_iso ;;
        let d2 := dict_set "updatedAt" (JStr ts) d1 in
        save_tasks (list_set i (JObj d2) tasks) ;;
        print ("Task " ++ str_of_int tid ++ " updated successfully.")
      | _ => print ("Task with ID " ++ str_of_int tid ++ " not found.")
      end
    end
  | _ => print ("Usage: update <id> " ++ quoted "new description")
  end.

(** The list comprehension of line 128. *)
Fixpoint without_id (tasks : list json) (tid : Z) : result (list json) :=
  match tasks with
  | [] => Val []
  | t :: rest =>
    v <~ py_get t "id" JNull ;;
    kept <~ without_id rest tid ;;
    Val (if negb (py_eq_int v tid) then t :: kept else kept)
  end.

(** [cmd_delete] (lines 114-130) *)
Definition cmd_delete (args : list string) : M unit :=
  match args with
  | [] => print "Usage: delete <id>"
  | tid_arg :: _ =>
    match py_int tid_arg with
    | IntValueError => print "Invalid id. Id must be an integer."
    | IntUnmodelled => unmodelled
    | IntOk tid =>
      tasks <- load_tasks ;;
      found <- lift (find_task tasks tid) ;;
      match found with
      | Some (_, _ :: _) =>
        tasks' <- lift (without_id tasks tid) ;;
        save_tasks tasks' ;;
        print ("Task " ++ str_of_int tid ++ " deleted successfully.")
      | _ => print ("Task with ID " ++ str_of_int tid ++ " not found.")
      end
    end
  end.

(** [cmd_mark] (lines 133-150) *)
Definition cmd_mark (args : list string) (status : string) : M unit :=
  match args with
  | [] => print ("Usage: mark-" ++ status ++ " <id>")
  | tid_arg :: _ =>
    match py_int tid_arg with
    | IntValueError => print "Invalid id. Id must be an integer."
    | IntUnmodelled => unmodelled
    | IntOk tid =>
      tasks <- load_tasks ;;
      found <- lift (find_task tasks tid) ;;
      match found with
      | Some (i, ((_ :: _) as d)) =>
        let d1 := dict_set "status" (JStr status) d in
        ts <- now_iso ;;
        let d2 := dict_set "updatedAt" (JStr ts) d1 in
        save_tasks (list_set i (JObj d2) tasks) ;;
        print ("Task " ++ str_of_int tid ++ " marked as " ++ status ++ ".")
      | _ => print ("Task with ID " ++ str_of_int tid ++ " not found.")
      end
    end
  end.

(** The filter chosen by lines 154-167 of [cmd_list]: none, one status, or
    the invalid-filter error. *)
Inductive list_filter : Type :=
| Unfiltered
| Only (status : string)
| InvalidFilter.

Definition VALID_STATUSES : list string := ["todo"; "in-progress"; "done"].

Definition in_strs (s : string) (l : list string) : bool :=
  existsb (String.eqb s) l.

Definition status_filter (lowered : string) : list_filter :=
  if String.eqb lowered "todo" then Only "todo"
  else if in_strs lowered ["in-progress"; "inprogress"; "in_progress"] then Only "in-progress"
  else if in_strs lowered ["done"; "completed"] then Only "done"
  else if String.eqb lowered "all" then Unfiltered
  else if negb (in_strs lowered VALID_STATUSES) then InvalidFilter
  else Only lowered.

(** [str(v)] as an f-string formats it; the [repr] of lists and dicts is
    not modelled. *)
Definition py_str (v : json) : result string :=
  match v with
  | JStr s => Val s
  | JInt n => Val (str_of_int n)
  | JBool true => Val "True"
  | JBool false => Val "False"
  | JNull => Val "None"
  | JArr _ | JObj _ => NoModel
  end.

(** [t[key]] *)
Definition subscript (t : json) (key : string) : result json :=
  match t with
  | JObj d =>
    match dict_get key d with
    | Some v => Val v
    | None => Exn KeyError
    end
  | _ => Exn TypeError
  end.

Definition field (t : json) (key : string) : result string :=
  v <~ subscript t key ;; py_str v.

(** [fmt] (lines 174-175) *)
Definition fmt (t : json) : result string :=
  i <~ field t "id" ;;
  s <~ field t "status" ;;
  d <~ field t "description" ;;
  c <~ field t "createdAt" ;;
  u <~ field t "updatedAt" ;;
  Val ("[" ++ i ++ "] (" ++ s ++ ") " ++ d ++ "  - created: " ++ c ++ " updated: " ++ u).

(** The list comprehension of line 177. *)
Fixpoint with_status (tasks : list json) (status : string) : result (list json) :=
  match tasks with
  | [] => Val []
  | t :: rest =>
    v <~ py_get t "status" JNull ;;
    kept <~ with_status rest status ;;
    Val (if py_eq_str v status then t :: kept else kept)
  end.

(** The loop of lines 181-182. *)
Fixpoint print_tasks (tasks : list json) : M unit :=
  match tasks with
  | [] => ret tt
  | t :: rest => line <- lift (fmt t) ;; print line ;; print_tasks rest
  end.

(** Lines 169-182 of [cmd_list], for the filter already chosen
    ([None]: no filter). *)
Definition list_tasks (chosen : option string) : M unit :=
  tasks <- load_tasks ;;
  match tasks with
  | [] => print "No tasks found."
  | _ :: _ =>
    filtered <- lift match chosen with
                     | None => Val tasks
                     | Some status => with_status tasks status
                     end ;;
    match filtered with
    | [] => print "No tasks match the filter."
    | _ :: _ => print_tasks filtered
    end
  end.

(** [cmd_list] (lines 153-182) *)
Definition cmd_list (args : list string) : M unit :=
  match args with
  | [] => list_tasks None
  | arg :: _ =>
    match str_lower arg with
    | None => unmodelled
    | Some lowered =>
      match status_filter lowered with
      | InvalidFilter =>
        print "Invalid status filter. Use: all | todo | in-progress | done"
      | Unfiltered => list_tasks None
      | Only status => list_tasks (Some status)
      end
    end
  end.

(** [print_help] (lines 185-193) *)
Definition help_lines : list string :=
  [ "Task Tracker CLI";
    "Usage:";
    "  add " ++ quoted "description";
    "  update <id> " ++ quoted "new description";
    "  delete <id>";
    "  mark-in-progress <id>";
    "  mark-done <id>";
    "  list [all|todo|in-progress|done]" ].

Fixpoint print_lines (lines : list string) : M unit :=
  match lines with
  | [] => ret tt
  | l :: rest => print l ;; print_lines rest
  end.

Definition print_help : M unit := print_lines help_lines.

(** [main] (lines 196-228); [argv] is [sys.argv]. *)
Definition main (argv : list string) : M unit :=
  match argv with
  | [] | [_] => print_help
  | _ :: verb :: args =>
    match str_lower verb with
    | None => unmodelled
    | Some cmd =>
      if String.eqb cmd "add" then
        match args with
        | [] => print ("Usage: add " ++ quoted "description")
        | _ :: _ => cmd_add [join " " args]
        end
      else if String.eqb cmd "update" then
        match args with
        | tid :: ((_ :: _) as desc) => cmd_update [tid; join " " desc]
        | _ => print ("Usage: update <id> " ++ quoted "new description")
        end
      else if String.eqb cmd "delete" then cmd_delete args
      else if String.eqb cmd "mark-in-progress" then cmd_mark args "in-progress"
      else if String.eqb cmd "mark-done" then cmd_mark args "done"
      else if String.eqb cmd "list" then cmd_list args
      else if in_strs cmd ["-h"; "--help"; "help"] then print_help
      else (print ("Unknown command: " ++ cmd) ;; print_help)
    end
  end.

(** ** Vocabulary of the properties *)

(** Nesting depth of a value: the fuel [scan_once] needs for its text. *)
Fixpoint depth (v : json) : nat :=
  match v with
  | JArr items => S (fold_right (fun x m => Nat.max (depth x) m) O items)
  | JObj fields => S (fold_right (fun kv m => Nat.max (depth (snd kv)) m) O fields)
  | _ => O
  end.

Fixpoint distinct (keys : list string) : bool :=
  match keys with
  | [] => true
  | k :: rest => negb (in_strs k rest) && distinct rest
  end.

(** The invariant of Python dicts: in every dict of the value the keys are
    pairwise distinct. *)
Fixpoint distinct_keys (v : json) : bool :=
  match v with
  | JArr items => forallb distinct_keys items
  | JObj fields =>
    distinct (map fst fields) && forallb (fun kv => distinct_keys (snd kv)) fields
  | _ => true
  end.

(** Every str of the value, keys included, is UTF-8 text. *)
Fixpoint encodable (v : json) : bool :=
  match v with
  | JStr s => valid_utf8 s
  | JArr items => forallb encodable items
  | JObj fields => forallb (fun kv => valid_utf8 (fst kv) && encodable (snd kv)) fields
  | _ => true
  end.

Definition well_formed (v : json) : bool := distinct_keys v && encodable v.

(** The fields of a task object (section 6 of the specification): an int
    [id] and the strs [description], [status], [createdAt], [updatedAt].
    Nothing below depends on the id being positive or on the status being
    one of the three known ones, so [is_task] does not ask for it. *)
Definition task_id (t : json) : option Z :=
  match t with
  | JObj d =>
    match dict_get "id" d with
    | Some (JInt n) => Some n
    | _ => None
    end
  | _ => None
  end.

Definition str_field (key : string) (t : json) : option string :=
  match t with
  | JObj d =>
    match dict_get key d with
    | Some (JStr s) => Some s
    | _ => None
    end
  | _ => None
  end.

Definition is_task (t : json) : bool :=
  well_formed t
  && match task_id t, str_field "description" t, str_field "status" t,
           str_field "createdAt" t, str_field "updatedAt" t with
     | Some _, Some _, Some _, Some _, Some _ => true
     | _, _, _, _, _ => false
     end.

(** A collection: a list of task objects.  Ids may repeat and have gaps. *)
Definition collection (tasks : list json) : Prop :=
  forallb is_task tasks = true.

(** The storage file holds the collection [tasks]: it is UTF-8 text that
    [json.load] reads as the list [tasks]; an absent file holds the empty
    collection. *)
Definition holds (w : world) (tasks : list json) : Prop :=
  match file w with
  | Some text => valid_utf8 text = true /\ json_loads text = Loaded (JArr tasks)
  | None => tasks = []
  end.

(** The clock reads text, as the ASCII timestamps of [now_iso] are. *)
Definition clock_ok (w : world) : Prop :=
  forall n, valid_utf8 (clock w n) = true.

Definition has_id (tid : Z) (t : json) : bool :=
  match task_id t with
  | Some n => (n =? tid)%Z
  | None => false
  end.

(** The events of a run that printed [lines] and did nothing else. *)
Definition printed (lines : list string) (w : world) : world :=
  emit_all (map EPrint lines) w.

Definition is_write (e : event) : bool :=
  match e with
  | EWrite _ => true
  | EPrint _ => false
  end.

(** *** Sequences of add and delete commands *)

Inductive op : Type :=
| Add (description : string)
| Delete (id_arg : string).

Definition argv_of (o : op) : list string :=
  match o with
  | Add description => ["task_cli.py"; "add"; description]
  | Delete id_arg => ["task_cli.py"; "delete"; id_arg]
  end.

(** Operations inside the model: a description that is UTF-8 text, an id
    argument that is ASCII. *)
Definition op_ok (o : op) : bool :=
  match o with
  | Add description => valid_utf8 description
  | Delete id_arg => is_ascii id_arg
  end.

Fixpoint run_ops (ops : list op) : M unit :=
  match ops with
  | [] => ret tt
  | o :: rest => main (argv_of o) ;; run_ops rest
  end.

(** The tasks read back from the storage file, and the id of the last. *)
Definition stored_tasks (w : world) : list json :=
  match file w with
  | Some text =>
    match json_loads text with
    | Loaded (JArr tasks) => tasks
    | _ => []
    end
  | None => []
  end.

Definition last_id (w : world) : option Z :=
  match List.rev (stored_tasks w) with
  | t :: _ => task_id t
  | [] => None
  end.

(** The ids that the add commands of [ops] assign, in order: each is the
    id of the task that the command appended. *)
Fixpoint assigned_ids (ops : list op) (w : world) : list Z :=
  match ops with
  | [] => []
  | o :: rest =>
    match main (argv_of o) w with
    | Ok _ w' =>
      match o, last_id w' with
      | Add _, Some n => n :: assigned_ids rest w'
      | _, _ => assigned_ids rest w'
      end
    | _ => []
    end
  end.

Fixpoint increasing (ids : list Z) : bool :=
  match ids with
  | a :: ((b :: _) as rest) => (a <? b)%Z && increasing rest
  | _ => true
  end.

(** *** Invalid user input, as the specification lists it *)

Definition id_verbs : list string := ["delete"; "mark-in-progress"; "mark-done"].

Definition known_verbs : list string :=
  ["add"; "update"; "delete"; "mark-in-progress"; "mark-done"; "list";
   "-h"; "--help"; "help"].

Definition accepted_filters : list string :=
  ["all"; "todo"; "in-progress"; "inprogress"; "in_progress"; "done"; "completed"].

(** The kinds of invalid input, and what the program reports for each: the
    usage line of the verb for a missing argument, an error message for a
    bad id or filter, and for an unknown verb the line that names it
    followed by the help text. *)
Inductive input_error : Type :=
| NonIntegerId
| MissingArgument (cmd : string)
| UnknownFilter
| UnknownVerb (cmd : string).

Definition usage_line (cmd : string) : string :=
  if String.eqb cmd "add" then "Usage: add " ++ quoted "description"
  else if String.eqb cmd "update" then "Usage: update <id> " ++ quoted "new description"
  else "Usage: " ++ cmd ++ " <id>".

Definition report (e : input_error) : list string :=
  match e with
  | NonIntegerId => ["Invalid id. Id must be an integer."]
  | MissingArgument cmd => [usage_line cmd]
  | UnknownFilter => ["Invalid status filter. Use: all | todo | in-progress | done"]
  | UnknownVerb cmd => ("Unknown command: " ++ cmd) :: help_lines
  end.

(** [invalid_input argv e]: the command line [argv] is invalid input of
    kind [e].  A non-integer id is a text that [int] rejects with
    [ValueError]. *)
Inductive invalid_input : list string -> input_error -> Prop :=
| non_integer_id_update prog verb tid desc :
    str_lower verb = Some "update" -> desc <> [] ->
    py_int tid = IntValueError ->
    invalid_input (prog :: verb :: tid :: desc) NonIntegerId
| non_integer_id prog verb cmd tid rest :
    str_lower verb = Some cmd -> In cmd id_verbs ->
    py_int tid = IntValueError ->
    invalid_input (prog :: verb :: tid :: rest) NonIntegerId
| missing_description prog verb :
    str_lower verb = Some "add" ->
    invalid_input [prog; verb] (MissingArgument "add")
| missing_update_argument prog verb args :
    str_lower verb = Some "update" -> (List.length args < 2)%nat ->
    invalid_input (prog :: verb :: args) (MissingArgument "update")
| missing_id prog verb cmd :
    str_lower verb = Some cmd -> In cmd id_verbs ->
    invalid_input [prog; verb] (MissingArgument cmd)
| unknown_filter prog verb arg rest lowered :
    str_lower verb = Some "list" -> str_lower arg = Some lowered ->
    ~ In lowered accepted_filters ->
    invalid_input (prog :: verb :: arg :: rest) UnknownFilter
| unknown_verb prog verb cmd args :
    str_lower verb = Some cmd -> ~ In cmd known_verbs ->
    invalid_input (prog :: verb :: args) (UnknownVerb cmd).

(** *** The list command, in the words of the specification *)

(** Filter normalization: [Some None] is unfiltered, [Some (Some s)] keeps
    the tasks of status [s], [None] is the invalid-filter error. *)
Definition normalized_filter (lowered : string) : option (option string) :=
  if String.eqb lowered "all" then Some None
  else if String.eqb lowered "todo" then Some (Some "todo")
  else if in_strs lowered ["in-progress"; "inprogress"; "in_progress"]
  then Some (Some "in-progress")
  else if in_strs lowered ["done"; "completed"] then Some (Some "done")
  else None.

Definition or_empty (o : option string) : string :=
  match o with
  | Some s => s
  | None => EmptyString
  end.

(** The display line of a task object. *)
Definition task_line (t : json) : string :=
  "[" ++ match task_id t with
         | Some n => str_of_int n
         | None => EmptyString
         end
  ++ "] (" ++ or_empty (str_field "status" t) ++ ") "
  ++ or_empty (str_field "description" t)
  ++ "  - created: " ++ or_empty (str_field "createdAt" t)
  ++ " updated: " ++ or_empty (str_field "updatedAt" t).

Definition matches (chosen : option string) (t : json) : bool :=
  match chosen, str_field "status" t with
  | None, _ => true
  | Some status, Some s => String.eqb s status
  | Some _, None => false
  end.

Definition listing (chosen : option string) (tasks : list json) : list string :=
  match tasks with
  | [] => ["No tasks found."]
  | _ :: _ =>
    match filter (matches chosen) tasks with
    | [] => ["No tasks match the filter."]
    | shown => map task_line shown
    end
  end.

(** *** Auxiliary notions for the JSON round trip *)

(** The first character of a text, when it has one, satisfies [p]. *)
Definition head_is (p : ascii -> bool) (s : string) : bool :=
  match s with
  | String c _ => p c
  | EmptyString => false
  end.

(** What follows a value in the text of the encoder: nothing, a comma or
    a line break. *)
Definition delim (rest : string) : bool :=
  match rest with
  | EmptyString => true
  | String c _ => Ascii.eqb c "," || Ascii.eqb c newline
  end.

(** The characters a JSON value can start with in the encoder's text. *)
Definition value_start (c : ascii) : bool :=
  is_digit c || in_strs (str1 c) [str1 dquote; "{"; "["; "n"; "t"; "f"; "-"].

(** The text of one item of a dict at nesting [level]. *)
Definition field_text (level : nat) (kv : string * json) : string :=
  encode_basestring (fst kv) ++ ": " ++ encode (S level) (snd kv).

(** A text that is whole UTF-8 characters: before any text, it leaves the
    validity of that text unchanged. *)
Definition whole_chars (s : string) : Prop :=
  forall rest, valid_utf8 (s ++ rest) = valid_utf8 rest.

(** *** Sample data *)

Definition sample_tasks : list json :=
  [ JObj [("id", JInt 1); ("description", JStr "Buy milk"); ("status", JStr "todo");
          ("createdAt", JStr "2024-05-01T10:00:00Z");
          ("updatedAt", JStr "2024-05-01T10:00:00Z")];
    JObj [("id", JInt 3); ("description", JStr "Call Ann"); ("status", JStr "done");
          ("createdAt", JStr "2024-05-02T08:30:00Z");
          ("updatedAt", JStr "2024-05-03T09:00:00Z")] ].

Definition sample_clock (n : nat) : string :=
  "2024-06-0" ++ str_of_int (Z.of_nat (S n)) ++ "T12:00:00Z".

Definition empty_world : world := mkWorld None sample_clock 0 [].

Definition sample_world : world :=
  mkWorld (Some (json_dumps (JArr sample_tasks))) sample_clock 0 [].

(** The lines printed by a run, and the runs of a list of command lines
    one after the other. *)
Definition lines_of (w : world) : list string :=
  flat_map (fun e => match e with
                     | EPrint line => [line]
                     | EWrite _ => []
                     end) (trace w).

Fixpoint run_all (argvs : list (list string)) : M unit :=
  match argvs with
  | [] => ret tt
  | argv :: rest => main ("task_cli.py" :: argv) ;; run_all rest
  end.
(** *** Vocabulary of the further properties *)

(** The writes of a run: the texts written to the storage file, oldest
    first. *)
Definition writes (w : world) : list event := filter is_write (trace w).

Definition is_dict (t : json) : bool :=
  match t with
  | JObj _ => true
  | _ => false
  end.

(** [t.get("id") == tid] for a dict [t]; false for what is not a dict. *)
Definition id_equals (tid : Z) (t : json) : bool :=
  match t with
  | JObj d =>
    match dict_get "id" d with
    | Some v => py_eq_int v tid
    | None => false
    end
  | _ => false
  end.

(** The number that [next_id] takes for a dict: its int or bool id, and 0
    when it has no id; [None] for any other id and for what is not a
    dict. *)
Definition id_number (t : json) : option Z :=
  match t with
  | JObj d =>
    match dict_get "id" d with
    | Some v => as_int v
    | None => Some 0%Z
    end
  | _ => None
  end.

(** The storage of [w'] is that of [w]: same file, same writes, same
    clock. *)
Definition same_store (w w' : world) : Prop :=
  file w' = file w /\ writes w' = writes w /\ clock w' = clock w.

(** A computation that leaves the storage alone, however it ends. *)
Definition quiet {A : Type} (m : M A) : Prop :=
  forall w,
    match m w with
    | Ok _ w' | Raise _ w' => same_store w w'
    | Unmodelled => True
    end.



Definition writing_verbs : list string :=
  ["add"; "update"; "delete"; "mark-in-progress"; "mark-done"].

(** The keys that [fmt] reads, in the order in which it reads them. *)
Definition fmt_keys : list string :=
  ["id"; "status"; "description"; "createdAt"; "updatedAt"].

(** Every str that a run can handle is text that UTF-8 encodes: the next
    reading of the clock and, when [json.load] reads the storage file,
    every str of the value read.  (An escape such as \ud800 in the file
    puts a lone surrogate into a str; that str is not such text, and
    [save_tasks] cannot write it.) *)
Definition stored_text_ok (w : world) : bool :=
  valid_utf8 (clock w (ticks w))
  && match file w with
     | Some text =>
       match json_loads text with
       | Loaded v => encodable v
       | _ => true
       end
     | None => true
     end.


(** * Properties *)

(** ** Strings *)

Lemma append_assoc (a b c : string) : (a ++ b) ++ c = a ++ (b ++ c).
Proof. induction a as [|x a IH]; simpl; [reflexivity | now rewrite IH]. Qed.

Lemma append_nil_r (a : string) : a ++ EmptyString = a.
Proof. induction a as [|x a IH]; simpl; [reflexivity | now rewrite IH]. Qed.

Lemma length_append (a b : string) :
  String.length (a ++ b) = (String.length a + String.length b)%nat.
Proof. induction a as [|x a IH]; simpl; [reflexivity | now rewrite IH]. Qed.

Lemma head_is_append p a b : head_is p a = true -> head_is p (a ++ b) = true.
Proof. destruct a; simpl; [discriminate | trivial]. Qed.

Lemma skip_ws_head s : head_is (fun c => negb (is_ws c)) s = true -> skip_ws s = s.
Proof.
  destruct s as [|c r]; simpl; [discriminate|].
  now destruct (is_ws c).
Qed.

Lemma skip_ws_repeat n s : skip_ws (repeat_str "  " n ++ s) = skip_ws s.
Proof. induction n as [|n IH]; simpl; [reflexivity | exact IH]. Qed.

Lemma skip_ws_newline_indent level s :
  skip_ws (newline_indent level ++ s) = skip_ws s.
Proof. unfold newline_indent; simpl. apply skip_ws_repeat. Qed.

(** ** Decimal numerals *)

Lemma nzhead_not_D0 u u' : nzhead u <> D0 u'.
Proof. induction u; simpl; try discriminate; assumption. Qed.

Lemma unorm_D0_inv u u' : unorm u = D0 u' -> u' = Nil.
Proof.
  unfold unorm. destruct (nzhead u) eqn:E; intros H; try discriminate.
  - now injection H as <-.
  - exfalso. eapply nzhead_not_D0. rewrite E. reflexivity.
Qed.

Lemma pos_to_uint_norm p : unorm (Pos.to_uint p) = Pos.to_uint p.
Proof.
  rewrite <- (DecimalPos.Unsigned.to_of (Pos.to_uint p)).
  rewrite DecimalPos.Unsigned.of_to. reflexivity.
Qed.

Lemma pos_to_uint_head p :
  match Pos.to_uint p with
  | Nil | D0 _ => False
  | _ => True
  end.
Proof.
  pose proof (DecimalPos.Unsigned.to_uint_nonnil p) as Hn.
  pose proof (DecimalPos.Unsigned.to_uint_nonzero p) as Hz.
  pose proof (pos_to_uint_norm p) as Hu.
  destruct (Pos.to_uint p) as [|u| | | | | | | | |]; try exact I; try congruence.
  apply unorm_D0_inv in Hu. subst u. now apply Hz.
Qed.

Lemma lex_digits_uint u rest :
  head_is is_digit rest = false ->
  lex_digits (NilEmpty.string_of_uint u ++ rest) = (u, rest).
Proof.
  intros Hr. induction u; simpl; try (rewrite IHu; reflexivity).
  destruct rest as [|c r]; simpl in *; [reflexivity | now rewrite Hr].
Qed.

Lemma delim_not_digit rest : delim rest = true -> head_is is_digit rest = false.
Proof.
  destruct rest as [|c r]; simpl; [reflexivity|].
  intros H. apply orb_true_iff in H as [H|H]; apply Ascii.eqb_eq in H; subst c; reflexivity.
Qed.

Lemma delim_not_float rest : delim rest = true -> float_tail rest = false.
Proof.
  destruct rest as [|c r]; simpl; [reflexivity|].
  intros H. apply orb_true_iff in H as [H|H]; apply Ascii.eqb_eq in H; subst c; reflexivity.
Qed.

Lemma delim_skip_ws_nil : skip_ws EmptyString = EmptyString.
Proof. reflexivity. Qed.

(** A numeral without leading zero is read back digit by digit. *)
Lemma lex_int_part_uint u rest :
  match u with Nil | D0 _ => False | _ => True end ->
  head_is is_digit rest = false ->
  lex_int_part (NilEmpty.string_of_uint u ++ rest) = Some (u, rest)
  /\ head_is is_digit (NilEmpty.string_of_uint u ++ rest) = true.
Proof.
  intros Hu Hr.
  pose proof (lex_digits_uint u rest Hr) as L.
  destruct u; try contradiction; simpl in *;
    (destruct (lex_digits _) as [u' r'] eqn:E; injection L as -> ->; split; reflexivity).
Qed.

Lemma scan_number_int n rest :
  delim rest = true ->
  scan_number (str_of_int n ++ rest) = Parsed (JInt n) rest.
Proof.
  intros Hd.
  pose proof (delim_not_digit _ Hd) as Hdig.
  pose proof (delim_not_float _ Hd) as Hfl.
  unfold str_of_int. destruct n as [|p|p]; simpl.
  - unfold scan_number; simpl. now rewrite Hfl.
  - pose proof (pos_to_uint_head p) as Hh.
    destruct (lex_int_part_uint _ rest Hh Hdig) as [L _].
    assert (NilZero.string_of_uint (Pos.to_uint p) = NilEmpty.string_of_uint (Pos.to_uint p)) as ->.
    { destruct (Pos.to_uint p); try reflexivity; contradiction. }
    unfold scan_number.
    destruct (NilEmpty.string_of_uint (Pos.to_uint p) ++ rest) as [|c r] eqn:E.
    + simpl in L. discriminate.
    + assert (Ascii.eqb c "-" = false) as ->.
      { destruct (Pos.to_uint p); try contradiction; simpl in E; injection E as <- _; reflexivity. }
      rewrite L, Hfl. exact (f_equal (fun z => Parsed (JInt z) rest) (DecimalZ.of_to (Z.pos p))).
  - pose proof (pos_to_uint_head p) as Hh.
    destruct (lex_int_part_uint _ rest Hh Hdig) as [L _].
    assert (NilZero.string_of_uint (Pos.to_uint p) = NilEmpty.string_of_uint (Pos.to_uint p)) as ->.
    { destruct (Pos.to_uint p); try reflexivity; contradiction. }
    unfold scan_number. simpl.
    rewrite L, Hfl. exact (f_equal (fun z => Parsed (JInt z) rest) (DecimalZ.of_to (Z.neg p))).
Qed.

Lemma str_of_int_head n rest :
  head_is (fun c => is_digit c || Ascii.eqb c "-") (str_of_int n ++ rest) = true.
Proof.
  unfold str_of_int. destruct n as [|p|p]; simpl; try reflexivity.
  pose proof (pos_to_uint_head p) as Hh.
  destruct (Pos.to_uint p); try contradiction; reflexivity.
Qed.

(** ** Strings of the encoder are read back by [scanstring] *)

Lemma scanstring_escape_char c t :
  scanstring (escape_char c ++ t) = parse_map (String c) (scanstring t).
Proof.
  destruct c as [[] [] [] [] [] [] [] []]; reflexivity.
Qed.

Lemma scanstring_escape s rest :
  scanstring (escape s ++ String dquote rest) = Parsed s rest.
Proof.
  induction s as [|c s IH]; simpl.
  - reflexivity.
  - rewrite append_assoc, scanstring_escape_char, IH. reflexivity.
Qed.

Lemma scanstring_basestring s rest :
  exists t, encode_basestring s ++ rest = String dquote t
            /\ scanstring t = Parsed s rest.
Proof.
  exists (escape s ++ String dquote rest). split.
  - unfold encode_basestring. simpl. now rewrite append_assoc.
  - apply scanstring_escape.
Qed.

(** ** Induction on JSON values *)

Lemma json_ind (P : json -> Prop) :
  P JNull -> (forall b, P (JBool b)) -> (forall n, P (JInt n)) ->
  (forall s, P (JStr s)) ->
  (forall items, Forall P items -> P (JArr items)) ->
  (forall fields, Forall (fun kv => P (snd kv)) fields -> P (JObj fields)) ->
  forall v, P v.
Proof.
  intros Hnull Hbool Hint Hstr Harr Hobj.
  fix IH 1. intros [| b | n | s | items | fields].
  - exact Hnull.
  - apply Hbool.
  - apply Hint.
  - apply Hstr.
  - apply Harr.
    exact ((fix all (l : list json) : Forall P l :=
              match l with
              | [] => Forall_nil P
              | x :: r => Forall_cons x (IH x) (all r)
              end) items).
  - apply Hobj.
    exact ((fix all (l : list (string * json)) : Forall (fun kv => P (snd kv)) l :=
              match l with
              | [] => Forall_nil _
              | kv :: r => Forall_cons kv (IH (snd kv)) (all r)
              end) fields).
Qed.

(** ** The encoder's text *)

Lemma encode_arr level items :
  items <> [] ->
  encode level (JArr items)
  = "[" ++ newline_indent (S level)
    ++ String.concat ("," ++ newline_indent (S level)) (map (encode (S level)) items)
    ++ newline_indent level ++ "]".
Proof. destruct items; [congruence | reflexivity]. Qed.

Lemma encode_obj level fields :
  fields <> [] ->
  encode level (JObj fields)
  = "{" ++ newline_indent (S level)
    ++ String.concat ("," ++ newline_indent (S level))
         (map (fun kv => encode_basestring (fst kv) ++ ": " ++ encode (S level) (snd kv))
              fields)
    ++ newline_indent level ++ "}".
Proof. destruct fields; [congruence | reflexivity]. Qed.

Lemma concat_cons2 sep (a b : string) l :
  String.concat sep (a :: b :: l) = a ++ sep ++ String.concat sep (b :: l).
Proof. reflexivity. Qed.

Lemma value_start_props c :
  value_start c = true ->
  is_ws c = false /\ Ascii.eqb c "]" = false /\ Ascii.eqb c "}" = false.
Proof.
  destruct c as [[] [] [] [] [] [] [] []]; intros H; try discriminate H;
    repeat split; reflexivity.
Qed.

Lemma encode_head level v rest :
  head_is value_start (encode level v ++ rest) = true.
Proof.
  destruct v as [| [] | n | s | [|x items] | [|kv fields]]; try reflexivity.
  pose proof (str_of_int_head n rest) as H. simpl.
  destruct (str_of_int n ++ rest) as [|c r]; simpl in *; [discriminate|].
  unfold value_start. apply orb_true_iff in H as [H|H].
  - now rewrite H.
  - apply Ascii.eqb_eq in H. subst c. reflexivity.
Qed.

Lemma skip_ws_value s : head_is value_start s = true -> skip_ws s = s.
Proof.
  intros H. apply skip_ws_head. destruct s as [|c r]; simpl in *; [discriminate|].
  now destruct (value_start_props c H) as [-> _].
Qed.

Lemma concat_head (p : ascii -> bool) sep (x : string) l rest :
  (forall r, head_is p (x ++ r) = true) ->
  head_is p (String.concat sep (x :: l) ++ rest) = true.
Proof.
  intros H. destruct l as [|y l].
  - apply H.
  - rewrite concat_cons2, append_assoc. apply H.
Qed.

Lemma length_concat_ge sep (l : list string) :
  Forall (fun x => 1 <= String.length x)%nat l ->
  (List.length l <= String.length (String.concat sep l))%nat.
Proof.
  induction 1 as [|x l Hx Hl IH]; [simpl; lia|].
  destruct l as [|y l]; [simpl in *; lia|].
  rewrite concat_cons2, !length_append.
  change (Datatypes.length (x :: y :: l)) with (S (Datatypes.length (y :: l))).
  lia.
Qed.

Lemma length_concat_in sep (x : string) (l : list string) :
  In x l -> (String.length x <= String.length (String.concat sep l))%nat.
Proof.
  induction l as [|y l IH]; simpl; [contradiction|].
  intros [->|Hin].
  - destruct l; [lia | rewrite length_append; lia].
  - destruct l as [|z l]; [contradiction|].
    specialize (IH Hin).
    change (String.concat sep (y :: z :: l)) with (y ++ sep ++ String.concat sep (z :: l)).
    rewrite !length_append. lia.
Qed.

Lemma encode_nonempty level v : (1 <= String.length (encode level v))%nat.
Proof.
  pose proof (encode_head level v EmptyString) as H. rewrite append_nil_r in H.
  destruct (encode level v); simpl in *; [discriminate | lia].
Qed.

(** ** Lists and dicts of the encoder are read back *)

Section Loops.
Variable scan : string -> parse json.
Variable level : nat.

Lemma array_loop_encode items : forall n rest,
  (forall x, In x items ->
     forall r, delim r = true -> scan (encode (S level) x ++ r) = Parsed x r) ->
  items <> [] -> (List.length items <= n)%nat ->
  array_loop scan n
    (String.concat ("," ++ newline_indent (S level)) (map (encode (S level)) items)
     ++ newline_indent level ++ String "]" rest)
  = Parsed items rest.
Proof.
  induction items as [|x items IH]; intros n rest Hscan Hne Hn; [congruence|].
  destruct n as [|n]; [simpl in Hn; lia|].
  destruct items as [|y items].
  - change (String.concat ("," ++ newline_indent (S level)) (map (encode (S level)) [x]))
      with (encode (S level) x).
    cbn [array_loop].
    rewrite (Hscan x (or_introl eq_refl)) by reflexivity.
    rewrite skip_ws_newline_indent. reflexivity.
  - change (map (encode (S level)) (x :: y :: items))
      with (encode (S level) x :: map (encode (S level)) (y :: items)).
    change (map (encode (S level)) (y :: items))
      with (encode (S level) y :: map (encode (S level)) items).
    rewrite concat_cons2, !append_assoc.
    cbn [array_loop].
    rewrite (Hscan x (or_introl eq_refl)) by reflexivity.
    cbn [append skip_ws is_ws Ascii.eqb Bool.eqb orb].
    rewrite skip_ws_newline_indent.
    rewrite skip_ws_value by (apply concat_head; intros; apply encode_head).
    change (encode (S level) y :: map (encode (S level)) items)
      with (map (encode (S level)) (y :: items)).
    rewrite IH; [reflexivity | | discriminate | simpl in *; lia].
    intros z Hz. apply Hscan. now right.
Qed.

Lemma field_text_head kv r : head_is (Ascii.eqb dquote) (field_text level kv ++ r) = true.
Proof. reflexivity. Qed.

Lemma field_text_eq k v r :
  field_text level (k, v) ++ r
  = String dquote (escape k ++ String dquote (String ":" (String " " (encode (S level) v ++ r)))).
Proof.
  unfold field_text, encode_basestring. simpl fst. simpl snd.
  cbn [append]. rewrite !append_assoc. reflexivity.
Qed.

Lemma object_loop_encode fields : forall n rest,
  (forall kv, In kv fields ->
     forall r, delim r = true -> scan (encode (S level) (snd kv) ++ r) = Parsed (snd kv) r) ->
  fields <> [] -> (List.length fields <= n)%nat ->
  exists t,
    String.concat ("," ++ newline_indent (S level)) (map (field_text level) fields)
    ++ newline_indent level ++ String "}" rest = String dquote t
    /\ object_loop scan n t = Parsed fields rest.
Proof.
  induction fields as [|[k v] fields IH]; intros n rest Hscan Hne Hn; [congruence|].
  destruct n as [|n]; [simpl in Hn; lia|].
  destruct fields as [|kv' fields].
  - eexists. split.
    + change (String.concat ("," ++ newline_indent (S level)) (map (field_text level) [(k, v)]))
        with (field_text level (k, v)).
      rewrite field_text_eq. reflexivity.
    + cbn [object_loop]. rewrite scanstring_escape.
      cbn [append skip_ws is_ws Ascii.eqb Bool.eqb orb].
      rewrite skip_ws_value by apply encode_head.
      rewrite (Hscan (k, v) (or_introl eq_refl)) by reflexivity.
      rewrite skip_ws_newline_indent. reflexivity.
  - destruct (IH n rest) as (t & Et & Lt).
    { intros z Hz. apply Hscan. now right. }
    { discriminate. }
    { simpl in *; lia. }
    eexists. split.
    + change (map (field_text level) ((k, v) :: kv' :: fields))
        with (field_text level (k, v) :: field_text level kv' :: map (field_text level) fields).
      rewrite concat_cons2.
      change (field_text level kv' :: map (field_text level) fields) with (map (field_text level) (kv' :: fields)).
      rewrite !append_assoc, Et, field_text_eq. reflexivity.
    + cbn [object_loop]. rewrite scanstring_escape.
      cbn [append skip_ws is_ws Ascii.eqb Bool.eqb orb].
      rewrite skip_ws_value by apply encode_head.
      rewrite (Hscan (k, v) (or_introl eq_refl)) by reflexivity.
      cbn [append skip_ws is_ws Ascii.eqb Bool.eqb orb].
      rewrite skip_ws_newline_indent.
      cbn [skip_ws is_ws Ascii.eqb Bool.eqb orb dquote].
      rewrite Lt. reflexivity.
Qed.

End Loops.

(** ** [dict(pairs)] on distinct keys *)

Lemma in_strs_spec s l : in_strs s l = true <-> In s l.
Proof.
  unfold in_strs. rewrite existsb_exists. split.
  - intros (x & Hx & E). apply String.eqb_eq in E. now subst.
  - intros H. exists s. split; [assumption | apply String.eqb_refl].
Qed.

Lemma distinct_NoDup keys : distinct keys = true <-> NoDup keys.
Proof.
  induction keys as [|k keys IH]; simpl.
  - split; [constructor | reflexivity].
  - rewrite andb_true_iff, negb_true_iff, IH. split.
    + intros [Hk Hd]. constructor; [|assumption].
      intros Hin. apply in_strs_spec in Hin. congruence.
    + intros H. inversion H as [|? ? Hk Hd]; subst. split; [|assumption].
      destruct (in_strs k keys) eqn:E; [|reflexivity].
      apply in_strs_spec in E. contradiction.
Qed.

Lemma dict_set_fresh k v d :
  ~ In k (map fst d) -> dict_set k v d = (d ++ [(k, v)])%list.
Proof.
  induction d as [|[k' v'] d IH]; simpl; intros Hk; [reflexivity|].
  destruct (String.eqb_spec k' k) as [->|Hne].
  - exfalso. apply Hk. now left.
  - rewrite IH; [reflexivity | tauto].
Qed.

Lemma dict_of_pairs_distinct kvs :
  distinct (map fst kvs) = true -> dict_of_pairs kvs = kvs.
Proof.
  intros H. apply distinct_NoDup in H. unfold dict_of_pairs.
  enough (G : forall acc, NoDup (map fst acc ++ map fst kvs)%list ->
              fold_left (fun d kv => dict_set (fst kv) (snd kv) d) kvs acc
              = (acc ++ kvs)%list) by (apply (G []); exact H).
  clear H. induction kvs as [|[k v] kvs IH]; intros acc Hnd; simpl.
  - now rewrite List.app_nil_r.
  - rewrite dict_set_fresh.
    + rewrite IH; [now rewrite <- List.app_assoc|].
      rewrite map_app, <- List.app_assoc. exact Hnd.
    + simpl in Hnd. apply NoDup_remove_2 in Hnd. intros Hin. apply Hnd.
      apply in_or_app. now left.
Qed.

(** ** Nesting depth and the length of the text *)

Lemma depth_arr_in x items :
  In x items -> (depth x < depth (JArr items))%nat.
Proof.
  simpl. induction items as [|y items IH]; simpl; [contradiction|].
  intros [->|Hin]; [lia | specialize (IH Hin); lia].
Qed.

Lemma depth_obj_in kv fields :
  In kv fields -> (depth (snd kv) < depth (JObj fields))%nat.
Proof.
  simpl. induction fields as [|y fields IH]; simpl; [contradiction|].
  intros [->|Hin]; [lia | specialize (IH Hin); lia].
Qed.

Lemma depth_le_length v : forall level, (depth v <= String.length (encode level v))%nat.
Proof.
  induction v as [| b | n | s | items IH | fields IH] using json_ind; intros level;
    try (simpl; lia).
  - destruct items as [|x items]; [simpl; lia|].
    rewrite encode_arr by discriminate. rewrite !length_append.
    change (String.length "[") with 1%nat.
    enough (fold_right (fun x m => Nat.max (depth x) m) O (x :: items)
            <= String.length (String.concat ("," ++ newline_indent (S level))
                                (map (encode (S level)) (x :: items))))%nat
      by (change (depth (JArr (x :: items)))
            with (S (fold_right (fun x m => Nat.max (depth x) m) O (x :: items))); lia).
    generalize dependent (x :: items). clear x items. intros l IH.
    assert (G : forall m, (forall y, In y l -> depth y <= m)%nat ->
                (fold_right (fun x m => Nat.max (depth x) m) O l <= m)%nat).
    { intros m. induction l as [|y l IHl]; simpl; intros Hm; [lia|].
      apply Nat.max_lub; [apply Hm; now left|].
      apply IHl; [now inversion IH | intros; apply Hm; now right]. }
    apply G. intros y Hy. rewrite Forall_forall in IH.
    etransitivity; [apply (IH y Hy (S level))|].
    apply length_concat_in. now apply in_map.
  - destruct fields as [|x fields]; [simpl; lia|].
    rewrite encode_obj by discriminate. rewrite !length_append.
    change (String.length "{") with 1%nat.
    enough (fold_right (fun kv m => Nat.max (depth (snd kv)) m) O (x :: fields)
            <= String.length (String.concat ("," ++ newline_indent (S level))
                                (map (field_text level) (x :: fields))))%nat
      by (change (depth (JObj (x :: fields)))
            with (S (fold_right (fun kv m => Nat.max (depth (snd kv)) m) O (x :: fields)));
          unfold field_text in *; lia).
    generalize dependent (x :: fields). clear x fields. intros l IH.
    assert (G : forall m, (forall y, In y l -> depth (snd y) <= m)%nat ->
                (fold_right (fun kv m => Nat.max (depth (snd kv)) m) O l <= m)%nat).
    { intros m. induction l as [|y l IHl]; simpl; intros Hm; [lia|].
      apply Nat.max_lub; [apply Hm; now left|].
      apply IHl; [now inversion IH | intros; apply Hm; now right]. }
    apply G. intros y Hy. rewrite Forall_forall in IH.
    etransitivity; [apply (IH y Hy (S level))|].
    etransitivity; [|apply length_concat_in; apply in_map; exact Hy].
    unfold field_text. rewrite !length_append. lia.
Qed.

(** ** [scan_once] reads back what [encode] wrote *)

Lemma encode_obj_rest level fields rest :
  fields <> [] ->
  encode level (JObj fields) ++ rest
  = String "{" (newline_indent (S level)
                ++ String.concat ("," ++ newline_indent (S level))
                     (map (field_text level) fields)
                ++ newline_indent level ++ String "}" rest).
Proof.
  intros H. rewrite encode_obj by exact H. rewrite !append_assoc. reflexivity.
Qed.

Lemma scan_encode v :
  distinct_keys v = true ->
  forall level rest fuel,
    (depth v < fuel)%nat -> delim rest = true ->
    scan_once fuel (encode level v ++ rest) = Parsed v rest.
Proof.
  induction v as [| b | n | s | items IH | fields IH] using json_ind;
    intros Hk level rest fuel Hf Hd;
    (destruct fuel as [|fuel]; [lia|]).
  - reflexivity.
  - destruct b; reflexivity.
  - pose proof (str_of_int_head n rest) as Hh.
    pose proof (scan_number_int n rest Hd) as Hs.
    cbn [encode]. cbn [scan_once].
    destruct (str_of_int n ++ rest) as [|c r]; [discriminate|].
    cbn [head_is] in Hh.
    assert (value_start c = true /\ Ascii.eqb c "n" = false /\ Ascii.eqb c "t" = false
            /\ Ascii.eqb c "f" = false /\ Ascii.eqb c dquote = false
            /\ Ascii.eqb c "{" = false /\ Ascii.eqb c "[" = false) as (_ & -> & -> & -> & -> & -> & ->).
    { clear - Hh. destruct c as [[] [] [] [] [] [] [] []]; try discriminate Hh;
        repeat split; reflexivity. }
    exact Hs.
  - destruct (scanstring_basestring s rest) as (t & Et & St).
    cbn [encode]. rewrite Et. cbn [scan_once]. rewrite Ascii.eqb_refl. now rewrite St.
  - destruct items as [|x items]; [reflexivity|].
    rewrite encode_arr by discriminate. rewrite !append_assoc.
    cbn [append]. cbn [scan_once]. cbn [Ascii.eqb Bool.eqb dquote].
    unfold parse_array. rewrite skip_ws_newline_indent.
    assert (Hhead : head_is value_start
                      (String.concat ("," ++ newline_indent (S level))
                         (map (encode (S level)) (x :: items))
                       ++ newline_indent level ++ String "]" rest) = true).
    { apply concat_head. intros; apply encode_head. }
    rewrite skip_ws_value by exact Hhead.
    destruct (String.concat _ _ ++ _) as [|c r] eqn:E in Hhead |- *; [discriminate|].
    cbn [head_is] in Hhead. destruct (value_start_props c Hhead) as (_ & -> & _).
    rewrite <- E. rewrite array_loop_encode; [reflexivity | | discriminate |].
    + intros y Hy r0 Hr. rewrite Forall_forall in IH. apply IH; [assumption | | | assumption].
      * cbn [distinct_keys] in Hk. rewrite forallb_forall in Hk. now apply Hk.
      * pose proof (depth_arr_in y _ Hy). lia.
    + rewrite !length_append.
      pose proof (length_concat_ge ("," ++ newline_indent (S level))
                    (map (encode (S level)) (x :: items))) as L.
      rewrite length_map in L. etransitivity; [apply L|lia].
      apply Forall_forall. intros e He. apply in_map_iff in He as (y & <- & _).
      apply encode_nonempty.
  - destruct fields as [|x fields]; [reflexivity|].
    rewrite encode_obj_rest by discriminate.
    cbn [scan_once]. cbn [Ascii.eqb Bool.eqb dquote].
    unfold parse_object. rewrite skip_ws_newline_indent.
    cbn [distinct_keys] in Hk. apply andb_true_iff in Hk as [Hdist Hk].
    destruct (object_loop_encode (scan_once fuel) level (x :: fields)
                (String.length (newline_indent (S level)
                   ++ String.concat ("," ++ newline_indent (S level))
                        (map (field_text level) (x :: fields))
                   ++ newline_indent level ++ String "}" rest)) rest) as (t & Et & Lt).
    + intros y Hy r0 Hr. rewrite Forall_forall in IH. apply IH; [assumption | | | assumption].
      * rewrite forallb_forall in Hk. now apply Hk.
      * pose proof (depth_obj_in y _ Hy). lia.
    + discriminate.
    + rewrite !length_append.
      pose proof (length_concat_ge ("," ++ newline_indent (S level))
                    (map (field_text level) (x :: fields))) as L.
      rewrite length_map in L. etransitivity; [apply L|lia].
      apply Forall_forall. intros e He. apply in_map_iff in He as (y & <- & _).
      unfold field_text, encode_basestring. simpl. lia.
    + rewrite Et. cbn [skip_ws is_ws Ascii.eqb Bool.eqb orb dquote].
      rewrite <- Et. rewrite Lt. cbn [parse_map].
      now rewrite dict_of_pairs_distinct.
Qed.

(** [json.loads] reads back what [json.dumps] wrote. *)
Theorem loads_dumps v :
  distinct_keys v = true -> json_loads (json_dumps v) = Loaded v.
Proof.
  intros Hk. unfold json_loads, json_dumps.
  pose proof (encode_head 0 v EmptyString) as Hh. rewrite append_nil_r in Hh.
  rewrite skip_ws_value by exact Hh.
  pose proof (scan_encode v Hk 0%nat EmptyString (S (String.length (encode 0 v)))) as Hs.
  rewrite append_nil_r in Hs. rewrite Hs; [reflexivity | | reflexivity].
  pose proof (depth_le_length v 0%nat). lia.
Qed.

(** ** The fuel of the decoder is never what stops it

    [scan_once] and the two loops consume input at every step, so the
    bounds chosen in [json_loads], [parse_array] and [parse_object] (the
    length of the text) are enough: more fuel gives the same result. *)

Lemma parse_map_parsed {A B : Type} (f : A -> B) p b rest :
  parse_map f p = Parsed b rest -> exists a, p = Parsed a rest /\ b = f a.
Proof. destruct p; simpl; intros [= <- <-] || discriminate. eauto. Qed.

Lemma skip_ws_length s : (String.length (skip_ws s) <= String.length s)%nat.
Proof.
  induction s as [|c s IH]; simpl; [lia|]. destruct (is_ws c); simpl; lia.
Qed.

Lemma strip_prefix_length p : forall s rest,
  strip_prefix p s = Some rest ->
  String.length s = (String.length p + String.length rest)%nat.
Proof.
  induction p as [|a p IH]; intros s rest; simpl.
  - now intros [= ->].
  - destruct s as [|b s]; [discriminate|]. destruct (Ascii.eqb a b); [|discriminate].
    intros H. simpl. now rewrite (IH _ _ H).
Qed.

Lemma lex_digits_length s : forall u rest,
  lex_digits s = (u, rest) -> (String.length rest <= String.length s)%nat.
Proof.
  induction s as [|c s IH]; intros u rest; simpl.
  - intros [= _ <-]. simpl. lia.
  - destruct (is_digit c).
    + destruct (lex_digits s) as [u' r'] eqn:E. intros [= _ <-].
      specialize (IH _ _ eq_refl). lia.
    + intros [= _ <-]. simpl. lia.
Qed.

Lemma scan_number_length s v rest :
  scan_number s = Parsed v rest -> (String.length rest < String.length s)%nat.
Proof.
  unfold scan_number.
  assert (L : forall b u r, lex_int_part b = Some (u, r) ->
                            (String.length r < String.length b)%nat).
  { intros b u r. unfold lex_int_part. destruct b as [|d b]; [discriminate|].
    destruct (Ascii.eqb d "0"); [intros [= _ <-]; simpl; lia|].
    destruct (is_digit d) eqn:Ed; [|discriminate].
    simpl. rewrite Ed. destruct (lex_digits b) as [u' r'] eqn:E.
    intros [= _ <-]. apply lex_digits_length in E. simpl. lia. }
  destruct s as [|c r].
  - simpl. discriminate.
  - destruct (Ascii.eqb c "-").
    + destruct (lex_int_part r) as [[u r']|] eqn:E.
      * destruct (float_tail r'); [discriminate|]. intros [= _ <-].
        apply L in E. simpl. lia.
      * repeat match goal with
               | |- context [strip_prefix ?a ?b] => destruct (strip_prefix a b)
               end; discriminate.
    + destruct (lex_int_part (String c r)) as [[u r']|] eqn:E.
      * destruct (float_tail r'); [discriminate|]. intros [= _ <-].
        now apply L in E.
      * repeat match goal with
               | |- context [strip_prefix ?a ?b] => destruct (strip_prefix a b)
               end; discriminate.
Qed.

Ltac break_match H :=
  repeat match type of H with
         | context [match ?x with _ => _ end] =>
           match x with
           | context [match _ with _ => _ end] => fail 1
           | _ => destruct x eqn:?
           end
         end.

Lemma scanstring_length n : forall s v rest,
  (String.length s <= n)%nat -> scanstring s = Parsed v rest ->
  (String.length rest < String.length s)%nat.
Proof.
  induction n as [|n IH]; intros s v rest Hl H;
    (destruct s as [|c r]; [simpl in H; discriminate|]); simpl in Hl; [lia|].
  cbn [scanstring] in H. unfold parse_map in H.
  break_match H; try discriminate H; subst; simpl in Hl |- *;
    injection H as <- <-;
    try match goal with
        | E : scanstring ?t = Parsed _ ?rest |- _ =>
          apply IH in E; [simpl in E; lia | simpl; lia]
        end; lia.
Qed.

Section Consumption.
Variable scan : string -> parse json.
Hypothesis scan_consumes :
  forall s v rest, scan s = Parsed v rest -> (String.length rest < String.length s)%nat.

Lemma array_loop_length n : forall s vs rest,
  array_loop scan n s = Parsed vs rest -> (String.length rest < String.length s)%nat.
Proof.
  induction n as [|n IH]; intros s vs rest H; [discriminate H|].
  cbn [array_loop] in H.
  destruct (scan s) as [v r| |] eqn:E; try discriminate H.
  apply scan_consumes in E. pose proof (skip_ws_length r) as Lr.
  destruct (skip_ws r) as [|c r'] eqn:Er; [discriminate H|]. simpl in Lr.
  destruct (Ascii.eqb c "]"); [injection H as _ <-; lia|].
  destruct (Ascii.eqb c ","); [|discriminate H].
  apply parse_map_parsed in H as (vs' & H & _). apply IH in H.
  pose proof (skip_ws_length r'). lia.
Qed.

Lemma parse_array_length s vs rest :
  parse_array scan s = Parsed vs rest -> (String.length rest <= String.length s)%nat.
Proof.
  unfold parse_array. pose proof (skip_ws_length s) as L.
  destruct (skip_ws s) as [|c r'] eqn:E; [discriminate|]. simpl in L.
  destruct (Ascii.eqb c "]"); [intros [= _ <-]; lia|].
  intros H. apply array_loop_length in H. simpl in H. lia.
Qed.

Lemma object_loop_length n : forall s kvs rest,
  object_loop scan n s = Parsed kvs rest -> (String.length rest < String.length s)%nat.
Proof.
  induction n as [|n IH]; intros s kvs rest H; [discriminate H|].
  cbn [object_loop] in H.
  destruct (scanstring s) as [key r| |] eqn:Ek; try discriminate H.
  apply (scanstring_length _ _ _ _ (le_n _)) in Ek.
  pose proof (skip_ws_length r) as Lr.
  destruct (skip_ws r) as [|c r1] eqn:Er; [discriminate H|]. simpl in Lr.
  destruct (Ascii.eqb c ":"); [|discriminate H].
  pose proof (skip_ws_length r1) as L1.
  destruct (scan (skip_ws r1)) as [v r3| |] eqn:Ev; try discriminate H.
  apply scan_consumes in Ev. pose proof (skip_ws_length r3) as L3.
  destruct (skip_ws r3) as [|d r4] eqn:E3; [discriminate H|]. simpl in L3.
  destruct (Ascii.eqb d "}"); [injection H as _ <-; lia|].
  destruct (Ascii.eqb d ","); [|discriminate H].
  pose proof (skip_ws_length r4) as L4.
  destruct (skip_ws r4) as [|q r5] eqn:E4; [discriminate H|]. simpl in L4.
  destruct (Ascii.eqb q dquote); [|discriminate H].
  apply parse_map_parsed in H as (kvs' & H & _). apply IH in H. lia.
Qed.

Lemma parse_object_length s kvs rest :
  parse_object scan s = Parsed kvs rest -> (String.length rest <= String.length s)%nat.
Proof.
  unfold parse_object. pose proof (skip_ws_length s) as L.
  destruct (skip_ws s) as [|c r'] eqn:E; [discriminate|]. simpl in L.
  destruct (Ascii.eqb c "}"); [intros [= _ <-]; lia|].
  destruct (Ascii.eqb c dquote); [|discriminate].
  intros H. apply object_loop_length in H. lia.
Qed.

End Consumption.

Lemma scan_once_length fuel : forall s v rest,
  scan_once fuel s = Parsed v rest -> (String.length rest < String.length s)%nat.
Proof.
  induction fuel as [|f IH]; intros s v rest H; [discriminate H|].
  cbn [scan_once] in H. destruct s as [|c r]; [discriminate H|].
  destruct (Ascii.eqb c dquote).
  { apply parse_map_parsed in H as (a & H & _).
    apply (scanstring_length _ _ _ _ (le_n _)) in H. simpl. lia. }
  destruct (Ascii.eqb c "{").
  { apply parse_map_parsed in H as (a & H & _).
    apply (parse_object_length _ IH) in H. simpl. lia. }
  destruct (Ascii.eqb c "[").
  { apply parse_map_parsed in H as (a & H & _).
    apply (parse_array_length _ IH) in H. simpl. lia. }
  destruct (Ascii.eqb c "n").
  { destruct (strip_prefix "null" _) eqn:E; [|discriminate H]. injection H as _ <-.
    apply strip_prefix_length in E. rewrite E. simpl. lia. }
  destruct (Ascii.eqb c "t").
  { destruct (strip_prefix "true" _) eqn:E; [|discriminate H]. injection H as _ <-.
    apply strip_prefix_length in E. rewrite E. simpl. lia. }
  destruct (Ascii.eqb c "f").
  { destruct (strip_prefix "false" _) eqn:E; [|discriminate H]. injection H as _ <-.
    apply strip_prefix_length in E. rewrite E. simpl. lia. }
  now apply scan_number_length in H.
Qed.

Section Agreement.
Variables scanA scanB : string -> parse json.
Variable bound : nat.
Hypothesis consumes :
  forall s v rest, scanA s = Parsed v rest -> (String.length rest < String.length s)%nat.
Hypothesis agree :
  forall s, (String.length s <= bound)%nat -> scanA s = scanB s.

Lemma array_loop_agree n : forall s,
  (String.length s <= bound)%nat -> array_loop scanA n s = array_loop scanB n s.
Proof.
  induction n as [|n IH]; intros s Hs; [reflexivity|].
  cbn [array_loop]. rewrite <- (agree s Hs).
  destruct (scanA s) as [v r| |] eqn:E; try reflexivity.
  apply consumes in E. pose proof (skip_ws_length r) as Lr.
  destruct (skip_ws r) as [|c r']; [reflexivity|]. simpl in Lr.
  destruct (Ascii.eqb c "]"); [reflexivity|].
  destruct (Ascii.eqb c ","); [|reflexivity].
  rewrite IH; [reflexivity|]. pose proof (skip_ws_length r'). lia.
Qed.

Lemma parse_array_agree s :
  (String.length s <= bound)%nat -> parse_array scanA s = parse_array scanB s.
Proof.
  intros Hs. unfold parse_array. destruct (skip_ws s) as [|c r'] eqn:E; [reflexivity|].
  destruct (Ascii.eqb c "]"); [reflexivity|].
  rewrite <- E. apply array_loop_agree. pose proof (skip_ws_length s). lia.
Qed.

Lemma object_loop_agree n : forall s,
  (String.length s <= bound)%nat -> object_loop scanA n s = object_loop scanB n s.
Proof.
  induction n as [|n IH]; intros s Hs; [reflexivity|].
  cbn [object_loop].
  destruct (scanstring s) as [key r| |] eqn:Ek; try reflexivity.
  apply (scanstring_length _ _ _ _ (le_n _)) in Ek.
  pose proof (skip_ws_length r) as Lr.
  destruct (skip_ws r) as [|c r1]; [reflexivity|]. simpl in Lr.
  destruct (Ascii.eqb c ":"); [|reflexivity].
  pose proof (skip_ws_length r1) as L1.
  rewrite <- (agree (skip_ws r1)) by lia.
  destruct (scanA (skip_ws r1)) as [v r3| |] eqn:Ev; try reflexivity.
  apply consumes in Ev. pose proof (skip_ws_length r3) as L3.
  destruct (skip_ws r3) as [|d r4]; [reflexivity|]. simpl in L3.
  destruct (Ascii.eqb d "}"); [reflexivity|].
  destruct (Ascii.eqb d ","); [|reflexivity].
  pose proof (skip_ws_length r4) as L4.
  destruct (skip_ws r4) as [|q r5]; [reflexivity|]. simpl in L4.
  destruct (Ascii.eqb q dquote); [|reflexivity].
  rewrite IH; [reflexivity | lia].
Qed.

Lemma parse_object_agree s :
  (String.length s <= bound)%nat -> parse_object scanA s = parse_object scanB s.
Proof.
  intros Hs. unfold parse_object. pose proof (skip_ws_length s) as L.
  destruct (skip_ws s) as [|c r']; [reflexivity|]. simpl in L.
  destruct (Ascii.eqb c "}"); [reflexivity|].
  destruct (Ascii.eqb c dquote); [|reflexivity].
  apply object_loop_agree. lia.
Qed.

End Agreement.

(** With fuel above the length of the text, [scan_once] does not depend on
    the fuel. *)
Theorem scan_once_fuel f1 : forall f2 s,
  (String.length s < f1)%nat -> (String.length s < f2)%nat ->
  scan_once f1 s = scan_once f2 s.
Proof.
  induction f1 as [|f1 IH]; intros f2 s H1 H2; [lia|].
  destruct f2 as [|f2]; [lia|].
  cbn [scan_once]. destruct s as [|c r]; [reflexivity|]. simpl in H1, H2.
  destruct (Ascii.eqb c dquote); [reflexivity|].
  destruct (Ascii.eqb c "{").
  { f_equal. apply (parse_object_agree _ _ (String.length r)); [apply scan_once_length| |lia].
    intros u Hu. apply IH; lia. }
  destruct (Ascii.eqb c "[").
  { f_equal. apply (parse_array_agree _ _ (String.length r)); [apply scan_once_length| |lia].
    intros u Hu. apply IH; lia. }
  reflexivity.
Qed.

(** With a bound of at least the length of the text, the loops do not
    depend on the bound. *)
Section Bounds.
Variable scan : string -> parse json.
Hypothesis consumes :
  forall s v rest, scan s = Parsed v rest -> (String.length rest < String.length s)%nat.
Hypothesis scan_empty : scan EmptyString = SyntaxError.

Lemma array_loop_step n s :
  array_loop scan (S n) s
  = match scan s with
    | Parsed v r =>
      match skip_ws r with
      | String c r' =>
        if Ascii.eqb c "]" then Parsed [v] r'
        else if Ascii.eqb c "," then parse_map (cons v) (array_loop scan n (skip_ws r'))
        else SyntaxError
      | EmptyString => SyntaxError
      end
    | SyntaxError => SyntaxError
    | FloatValue => FloatValue
    end.
Proof. reflexivity. Qed.

Lemma object_loop_step n s :
  object_loop scan (S n) s
  = match scanstring s with
    | Parsed key r =>
      match skip_ws r with
      | String c r1 =>
        if Ascii.eqb c ":" then
          match scan (skip_ws r1) with
          | Parsed v r3 =>
            match skip_ws r3 with
            | String d r4 =>
              if Ascii.eqb d "}" then Parsed [(key, v)] r4
              else if Ascii.eqb d "," then
                match skip_ws r4 with
                | String q r5 =>
                  if Ascii.eqb q dquote
                  then parse_map (cons (key, v)) (object_loop scan n r5)
                  else SyntaxError
                | EmptyString => SyntaxError
                end
              else SyntaxError
            | EmptyString => SyntaxError
            end
          | SyntaxError => SyntaxError
          | FloatValue => FloatValue
          end
        else SyntaxError
      | EmptyString => SyntaxError
      end
    | SyntaxError => SyntaxError
    | FloatValue => FloatValue
    end.
Proof. reflexivity. Qed.

Lemma array_loop_bound n : forall s,
  (String.length s <= n)%nat -> array_loop scan (S n) s = array_loop scan n s.
Proof.
  induction n as [|n IH]; intros s Hs.
  - destruct s; [|simpl in Hs; lia]. cbn [array_loop]. now rewrite scan_empty.
  - rewrite (array_loop_step (S n)), (array_loop_step n).
    destruct (scan s) as [v r| |] eqn:E; try reflexivity.
    apply consumes in E. pose proof (skip_ws_length r) as Lr.
    destruct (skip_ws r) as [|c r']; [reflexivity|]. simpl in Lr.
    destruct (Ascii.eqb c "]"); [reflexivity|].
    destruct (Ascii.eqb c ","); [|reflexivity].
    rewrite IH; [reflexivity|]. pose proof (skip_ws_length r'). lia.
Qed.

Lemma object_loop_bound n : forall s,
  (String.length s <= n)%nat -> object_loop scan (S n) s = object_loop scan n s.
Proof.
  induction n as [|n IH]; intros s Hs.
  - destruct s; [|simpl in Hs; lia]. reflexivity.
  - rewrite (object_loop_step (S n)), (object_loop_step n).
    destruct (scanstring s) as [key r| |] eqn:Ek; try reflexivity.
    apply (scanstring_length _ _ _ _ (le_n _)) in Ek.
    pose proof (skip_ws_length r) as Lr.
    destruct (skip_ws r) as [|c r1]; [reflexivity|]. simpl in Lr.
    destruct (Ascii.eqb c ":"); [|reflexivity].
    pose proof (skip_ws_length r1) as L1.
    destruct (scan (skip_ws r1)) as [v r3| |] eqn:Ev; try reflexivity.
    apply consumes in Ev. pose proof (skip_ws_length r3) as L3.
    destruct (skip_ws r3) as [|d r4]; [reflexivity|]. simpl in L3.
    destruct (Ascii.eqb d "}"); [reflexivity|].
    destruct (Ascii.eqb d ","); [|reflexivity].
    pose proof (skip_ws_length r4) as L4.
    destruct (skip_ws r4) as [|q r5]; [reflexivity|]. simpl in L4.
    destruct (Ascii.eqb q dquote); [|reflexivity].
    rewrite IH; [reflexivity | lia].
Qed.

Lemma array_loop_enough k s :
  array_loop scan (String.length s + k) s = array_loop scan (String.length s) s.
Proof.
  induction k as [|k IH]; [now rewrite Nat.add_0_r|].
  rewrite Nat.add_succ_r, array_loop_bound by lia. exact IH.
Qed.

Lemma object_loop_enough k s :
  object_loop scan (String.length s + k) s = object_loop scan (String.length s) s.
Proof.
  induction k as [|k IH]; [now rewrite Nat.add_0_r|].
  rewrite Nat.add_succ_r, object_loop_bound by lia. exact IH.
Qed.

End Bounds.

(** ** The encoder writes UTF-8 text *)

Ltac split_andb H :=
  repeat match type of H with
         | (_ && _ = true) =>
           let H2 := fresh "Hc" in apply andb_true_iff in H as [H H2]
         end.

Ltac use_conds :=
  repeat match goal with
         | H : ?c = true |- context [?c] => rewrite H
         end;
  cbn [andb].

Lemma valid_utf8_app_le n : forall a b,
  (String.length a <= n)%nat -> valid_utf8 a = true ->
  valid_utf8 (a ++ b) = valid_utf8 b.
Proof.
  induction n as [|n IH]; intros a b Hl Ha;
    (destruct a as [|b0 r0]; [reflexivity|]); simpl in Hl; [lia|].
  cbn [valid_utf8 append] in *.
  destruct (byte b0 <=? 127)%N; [apply IH; [lia | assumption]|].
  destruct r0 as [|b1 r1]; [discriminate|]. cbn [append] in *. simpl in Hl.
  destruct (in_range 194 223 b0).
  { split_andb Ha. use_conds. apply IH; [lia | assumption]. }
  destruct r1 as [|b2 r2]; [discriminate|]. cbn [append] in *. simpl in Hl.
  destruct (byte b0 =? 224)%N.
  { split_andb Ha. use_conds. apply IH; [lia | assumption]. }
  destruct (in_range 225 236 b0 || in_range 238 239 b0).
  { split_andb Ha. use_conds. apply IH; [lia | assumption]. }
  destruct (byte b0 =? 237)%N.
  { split_andb Ha. use_conds. apply IH; [lia | assumption]. }
  destruct r2 as [|b3 r3]; [discriminate|]. cbn [append] in *. simpl in Hl.
  destruct (byte b0 =? 240)%N.
  { split_andb Ha. use_conds. apply IH; [lia | assumption]. }
  destruct (in_range 241 243 b0).
  { split_andb Ha. use_conds. apply IH; [lia | assumption]. }
  destruct (byte b0 =? 244)%N; [|discriminate].
  split_andb Ha. use_conds. apply IH; [lia | assumption].
Qed.

Lemma valid_whole s : valid_utf8 s = true -> whole_chars s.
Proof. intros H rest. now apply (valid_utf8_app_le (String.length s)). Qed.

Lemma whole_append a b : whole_chars a -> whole_chars b -> whole_chars (a ++ b).
Proof. intros Ha Hb rest. now rewrite append_assoc, Ha, Hb. Qed.

Lemma whole_valid s : whole_chars s -> valid_utf8 s = true.
Proof. intros H. specialize (H EmptyString). now rewrite append_nil_r in H. Qed.

Lemma ascii_valid s : is_ascii s = true -> valid_utf8 s = true.
Proof.
  induction s as [|c s IH]; [reflexivity|].
  unfold is_ascii. cbn [str_forall valid_utf8]. intros H.
  apply andb_true_iff in H as [Hc Hs].
  apply N.ltb_lt in Hc.
  destruct (N.leb_spec (byte c) 127) as [_|Hgt]; [now apply IH | lia].
Qed.

Lemma ascii_whole s : is_ascii s = true -> whole_chars s.
Proof. intros H. apply valid_whole. now apply ascii_valid. Qed.

Lemma escape_char_low c t :
  (byte c <=? 127)%N = true -> valid_utf8 (escape_char c ++ t) = valid_utf8 t.
Proof.
  destruct c as [[] [] [] [] [] [] [] []]; intros H; try discriminate H; reflexivity.
Qed.

Lemma escape_char_high c : (byte c <=? 127)%N = false -> escape_char c = str1 c.
Proof.
  destruct c as [[] [] [] [] [] [] [] []]; intros H; try discriminate H; reflexivity.
Qed.

Lemma in_range_high lo hi c :
  (128 <= lo)%N -> in_range lo hi c = true -> escape_char c = str1 c.
Proof.
  intros Hlo H. apply escape_char_high. unfold in_range in H.
  apply andb_true_iff in H as [H _]. apply N.leb_le in H. apply N.leb_gt. lia.
Qed.

Ltac high_bytes :=
  repeat match goal with
         | H : in_range ?lo _ ?c = true |- context [escape_char ?c] =>
           rewrite (in_range_high lo _ c ltac:(lia) H)
         | H : cont ?c = true |- context [escape_char ?c] =>
           rewrite (in_range_high 128 191 c ltac:(lia) H)
         end;
  cbn [append str1].

Lemma valid_escape_le n : forall s b,
  (String.length s <= n)%nat -> valid_utf8 s = true ->
  valid_utf8 (escape s ++ b) = valid_utf8 b.
Proof.
  induction n as [|n IH]; intros s b Hl Hs;
    (destruct s as [|b0 r0]; [reflexivity|]); simpl in Hl; [lia|].
  cbn [escape]. rewrite append_assoc.
  cbn [valid_utf8] in Hs.
  destruct (byte b0 <=? 127)%N eqn:E0.
  { rewrite escape_char_low by exact E0. apply IH; [lia | assumption]. }
  rewrite (escape_char_high b0 E0). cbn [append str1].
  destruct r0 as [|b1 r1]; [discriminate|]. simpl in Hl.
  cbn [escape]. rewrite append_assoc.
  destruct (in_range 194 223 b0) eqn:E1.
  { split_andb Hs. high_bytes. cbn [valid_utf8]. rewrite E0, E1. use_conds.
    apply IH; [lia | assumption]. }
  destruct r1 as [|b2 r2]; [discriminate|]. simpl in Hl.
  cbn [escape]. rewrite append_assoc.
  destruct (byte b0 =? 224)%N eqn:E2.
  { split_andb Hs. high_bytes. cbn [valid_utf8]. rewrite E0, E1, E2. use_conds.
    apply IH; [lia | assumption]. }
  destruct (in_range 225 236 b0 || in_range 238 239 b0) eqn:E3.
  { split_andb Hs. high_bytes. cbn [valid_utf8]. rewrite E0, E1, E2, E3. use_conds.
    apply IH; [lia | assumption]. }
  destruct (byte b0 =? 237)%N eqn:E4.
  { split_andb Hs. high_bytes. cbn [valid_utf8]. rewrite E0, E1, E2, E3, E4. use_conds.
    apply IH; [lia | assumption]. }
  destruct r2 as [|b3 r3]; [discriminate|]. simpl in Hl.
  cbn [escape]. rewrite append_assoc.
  destruct (byte b0 =? 240)%N eqn:E5.
  { split_andb Hs. high_bytes. cbn [valid_utf8]. rewrite E0, E1, E2, E3, E4, E5. use_conds.
    apply IH; [lia | assumption]. }
  destruct (in_range 241 243 b0) eqn:E6.
  { split_andb Hs. high_bytes. cbn [valid_utf8]. rewrite E0, E1, E2, E3, E4, E5, E6.
    use_conds. apply IH; [lia | assumption]. }
  destruct (byte b0 =? 244)%N eqn:E7; [|discriminate].
  split_andb Hs. high_bytes. cbn [valid_utf8]. rewrite E0, E1, E2, E3, E4, E5, E6, E7.
  use_conds. apply IH; [lia | assumption].
Qed.

Lemma basestring_whole s : valid_utf8 s = true -> whole_chars (encode_basestring s).
Proof.
  intros H rest. unfold encode_basestring. cbn [append]. rewrite append_assoc.
  change (valid_utf8 (String dquote (escape s ++ str1 dquote ++ rest)))
    with (valid_utf8 (escape s ++ str1 dquote ++ rest)).
  now rewrite (valid_escape_le (String.length s)).
Qed.

Lemma uint_ascii u : is_ascii (NilEmpty.string_of_uint u) = true.
Proof. induction u; simpl; try reflexivity; exact IHu. Qed.

Lemma str_of_int_ascii n : is_ascii (str_of_int n) = true.
Proof.
  unfold str_of_int.
  assert (H : forall u, is_ascii (NilZero.string_of_uint u) = true).
  { intros u. destruct u; try reflexivity; apply (uint_ascii (_ _)). }
  destruct (Z.to_int n); simpl; [apply H | apply (H d)].
Qed.

Lemma newline_indent_whole level : whole_chars (newline_indent level).
Proof.
  apply ascii_whole. unfold newline_indent.
  induction level as [|l IH]; [reflexivity | exact IH].
Qed.

Lemma concat_whole sep l :
  whole_chars sep -> Forall whole_chars l -> whole_chars (String.concat sep l).
Proof.
  intros Hsep. induction 1 as [|x l Hx Hl IH]; [intros r; reflexivity|].
  destruct l as [|y l]; [exact Hx|].
  rewrite concat_cons2. repeat apply whole_append; assumption.
Qed.

Lemma encode_whole v : encodable v = true -> forall level, whole_chars (encode level v).
Proof.
  induction v as [| b | n | s | items IH | fields IH] using json_ind; intros He level.
  - now apply ascii_whole.
  - destruct b; now apply ascii_whole.
  - apply ascii_whole, str_of_int_ascii.
  - now apply basestring_whole.
  - destruct items as [|x items]; [now apply ascii_whole|].
    rewrite encode_arr by discriminate.
    cbn [encodable] in He. rewrite forallb_forall in He. rewrite Forall_forall in IH.
    repeat apply whole_append; try apply newline_indent_whole; try (now apply ascii_whole).
    apply concat_whole.
    + apply whole_append; [now apply ascii_whole | apply newline_indent_whole].
    + apply Forall_forall. intros e Hin. apply in_map_iff in Hin as (y & <- & Hy).
      apply IH; [exact Hy | now apply He].
  - destruct fields as [|x fields]; [now apply ascii_whole|].
    rewrite encode_obj by discriminate.
    cbn [encodable] in He. rewrite forallb_forall in He. rewrite Forall_forall in IH.
    repeat apply whole_append; try apply newline_indent_whole; try (now apply ascii_whole).
    apply concat_whole.
    + apply whole_append; [now apply ascii_whole | apply newline_indent_whole].
    + apply Forall_forall. intros e Hin. apply in_map_iff in Hin as (y & <- & Hy).
      specialize (He y Hy). apply andb_true_iff in He as [Hkey Hval].
      apply whole_append; [now apply basestring_whole|].
      apply whole_append; [now apply ascii_whole | apply IH; assumption].
Qed.

Lemma dumps_valid v : encodable v = true -> valid_utf8 (json_dumps v) = true.
Proof. intros H. apply whole_valid, encode_whole, H. Qed.

(** ** Samples: the text conversions and the decoder on concrete inputs *)

Example py_int_samples :
  py_int " 12 " = IntOk 12 /\ py_int "-7" = IntOk (-7)
  /\ py_int "1_000" = IntOk 1000 /\ py_int "abc" = IntValueError
  /\ py_int "1.5" = IntValueError /\ py_int "1__0" = IntValueError
  /\ py_int EmptyString = IntValueError
  /\ str_of_int 0 = "0" /\ str_of_int (-45) = "-45" /\ str_of_int 120 = "120"
  /\ str_lower "Mark-DONE" = Some "mark-done".
Proof. repeat split; reflexivity. Qed.

Example json_loads_samples :
  json_loads "[1, 2 , {}]" = Loaded (JArr [JInt 1; JInt 2; JObj []])
  /\ json_loads (quoted "not an array") = Loaded (JStr "not an array")
  /\ json_loads "[1,]" = JSONDecodeError
  /\ json_loads "[01]" = JSONDecodeError
  /\ json_loads EmptyString = JSONDecodeError
  /\ json_loads "{id: 1}" = JSONDecodeError
  /\ json_loads "[1.5]" = HasFloat
  /\ json_loads "-0" = Loaded (JInt 0).
Proof. repeat split; reflexivity. Qed.

(** ** Loading and saving *)

Lemma bind_ok {A B : Type} (m : M A) (k : A -> M B) w a w' :
  m w = Ok a w' -> bind m k w = k a w'.
Proof. unfold bind. now intros ->. Qed.

Lemma holds_file w w' tasks : file w' = file w -> holds w tasks -> holds w' tasks.
Proof. unfold holds. now intros ->. Qed.

Lemma load_holds w tasks : holds w tasks -> load_tasks w = Ok tasks w.
Proof.
  unfold holds, load_tasks. destruct (file w) as [text|].
  - intros [Hv Hl]. now rewrite Hv, Hl.
  - now intros ->.
Qed.

Lemma well_formed_list tasks :
  forallb well_formed tasks = true ->
  distinct_keys (JArr tasks) = true /\ encodable (JArr tasks) = true.
Proof.
  intros H. rewrite forallb_forall in H. cbn [distinct_keys encodable].
  split; apply forallb_forall; intros t Ht; specialize (H t Ht);
    unfold well_formed in H; now apply andb_true_iff in H.
Qed.

Lemma save_holds tasks w :
  forallb well_formed tasks = true ->
  save_tasks tasks w = Ok tt (write_file (json_dumps (JArr tasks)) w)
  /\ holds (write_file (json_dumps (JArr tasks)) w) tasks.
Proof.
  intros H. apply well_formed_list in H as [Hk He].
  unfold save_tasks. rewrite (dumps_valid _ He). split; [reflexivity|].
  unfold holds. cbn [file write_file]. split; [now apply dumps_valid | now apply loads_dumps].
Qed.

(** A file that is absent, or UTF-8 text which is not JSON or not a JSON
    array, loads as the empty list; the two corrupt cases are reported. *)
Lemma load_tasks_recovers w :
  (file w = None -> load_tasks w = Ok [] w)
  /\ (forall text, file w = Some text -> valid_utf8 text = true ->
        json_loads text = JSONDecodeError ->
        load_tasks w
        = Ok [] (printed ["Corrupt JSON in tasks file. Resetting to empty."] w))
  /\ (forall text v, file w = Some text -> valid_utf8 text = true ->
        json_loads text = Loaded v -> (forall items, v <> JArr items) ->
        load_tasks w
        = Ok [] (printed ["Corrupt tasks file: expected a list. Resetting to empty."] w)).
Proof.
  unfold load_tasks. repeat split.
  - now intros ->.
  - intros text -> -> ->. reflexivity.
  - intros text v -> -> -> Hv. destruct v; try reflexivity. now elim (Hv items).
Qed.

Example load_not_an_array clk n tr :
  load_tasks (mkWorld (Some (quoted "not an array")) clk n tr)
  = Ok [] (mkWorld (Some (quoted "not an array")) clk n
             (tr ++ [EPrint "Corrupt tasks file: expected a list. Resetting to empty."])).
Proof. reflexivity. Qed.

(** A storage file that is not UTF-8 text makes [load_tasks] raise. *)
Lemma undecodable_file_raises w bytes :
  file w = Some bytes -> valid_utf8 bytes = false ->
  load_tasks w = Raise UnicodeDecodeError w.
Proof. unfold load_tasks. now intros -> ->. Qed.

(** C4. [load_tasks] on a storage file that is not UTF-8 text (here the
    single byte 255): the read raises UnicodeDecodeError, which the handler
    for [json.JSONDecodeError] does not catch; nothing is reported and no
    empty list is returned. *)
Theorem load_tasks_undecodable_file clk n tr :
  load_tasks (mkWorld (Some (str1 "255"%char)) clk n tr)
  = Raise UnicodeDecodeError (mkWorld (Some (str1 "255"%char)) clk n tr).
Proof. reflexivity. Qed.

(** C5. For every collection of well-formed values (the task objects among
    them), saving it and loading it back returns the same list, keys in the
    same order, and reports nothing: the only event is the write. *)
Theorem save_then_load tasks w :
  forallb well_formed tasks = true ->
  (save_tasks tasks ;; load_tasks) w
  = Ok tasks (write_file (json_dumps (JArr tasks)) w).
Proof.
  intros H. destruct (save_holds tasks w H) as [Hs Hh].
  rewrite (bind_ok _ _ _ _ _ Hs). now apply load_holds.
Qed.

Lemma save_then_load_witness :
  (save_tasks sample_tasks ;; load_tasks) empty_world
  = Ok sample_tasks (write_file (json_dumps (JArr sample_tasks)) empty_world).
Proof. apply (save_then_load sample_tasks empty_world). reflexivity. Defined.

Lemma is_task_inv t :
  is_task t = true ->
  exists d n, t = JObj d /\ dict_get "id" d = Some (JInt n) /\ d <> []
              /\ well_formed t = true.
Proof.
  unfold is_task. intros H. apply andb_true_iff in H as [Hw H].
  destruct t as [| | | | |d]; try discriminate H.
  cbn [task_id] in H. destruct (dict_get "id" d) as [[| | n | | |]|] eqn:E; try discriminate H.
  exists d, n. repeat split; try assumption.
  intros ->. discriminate E.
Qed.

Lemma collection_cons t tasks :
  collection (t :: tasks) <-> is_task t = true /\ collection tasks.
Proof. unfold collection. cbn [forallb]. apply andb_true_iff. Qed.

Lemma collection_well_formed tasks :
  collection tasks -> forallb well_formed tasks = true.
Proof.
  unfold collection. rewrite !forallb_forall. intros H t Ht.
  specialize (H t Ht). unfold is_task in H. now apply andb_true_iff in H.
Qed.

Lemma collection_app a b : collection (a ++ b)%list <-> collection a /\ collection b.
Proof. unfold collection. rewrite forallb_app. apply andb_true_iff. Qed.

Lemma collection_filter f tasks : collection tasks -> collection (filter f tasks).
Proof.
  unfold collection. rewrite !forallb_forall. intros H t Ht.
  apply filter_In in Ht as [Ht _]. now apply H.
Qed.

(** ** [next_id] *)

Lemma task_id_get t n : task_id t = Some n -> py_get t "id" (JInt 0) = Val (JInt n).
Proof.
  destruct t as [| | | | |d]; try discriminate. cbn [task_id py_get].
  destruct (dict_get "id" d) as [[| | m | | |]|]; try discriminate.
  now intros [= ->].
Qed.

Lemma max_ids_spec tasks : forall ids cur,
  map task_id tasks = map Some ids ->
  max_ids cur tasks = Val (fold_left Z.max ids cur).
Proof.
  induction tasks as [|t tasks IH]; intros [|i ids] cur H; try discriminate H.
  - reflexivity.
  - cbn [map] in H. injection H as Ht Hr.
    cbn [max_ids]. rewrite (task_id_get _ _ Ht). cbn [rbind as_int].
    rewrite (IH ids _ Hr). cbn [fold_left]. f_equal. f_equal.
    destruct (Z.gtb_spec i cur); lia.
Qed.

Lemma fold_max_spec ids : forall cur,
  (In (fold_left Z.max ids cur) (cur :: ids))
  /\ Forall (fun i => (i <= fold_left Z.max ids cur)%Z) (cur :: ids).
Proof.
  induction ids as [|i ids IH]; intros cur; cbn [fold_left].
  - split; [now left | constructor; [lia | constructor]].
  - destruct (IH (Z.max cur i)) as [Hin Hall]. split.
    + destruct Hin as [E|Hin]; [|now right; right].
      rewrite <- E. destruct (Z.max_spec cur i) as [[_ ->]|[_ ->]]; [right; now left | now left].
    + inversion Hall as [|? ? Hm Hr]; subst. constructor; [lia|].
      constructor; [lia | assumption].
Qed.

(** C8. [next_id] returns 1 for the empty collection, and for a non-empty
    collection of tasks with int ids it returns the maximum of the ids
    plus 1. *)
Theorem next_id_max tasks ids :
  map task_id tasks = map Some ids ->
  (tasks = [] -> next_id tasks = Val 1%Z)
  /\ (tasks <> [] ->
      exists m, In m ids /\ Forall (fun i => (i <= m)%Z) ids
                /\ next_id tasks = Val (m + 1)%Z).
Proof.
  intros H. split; [now intros ->|]. intros Hne.
  destruct tasks as [|t tasks]; [congruence|].
  destruct ids as [|i ids]; [discriminate H|].
  cbn [map] in H. injection H as Ht Hr.
  exists (fold_left Z.max ids i).
  destruct (fold_max_spec ids i) as [Hin Hall]. repeat split; try assumption.
  cbn [next_id]. rewrite (task_id_get _ _ Ht). cbn [rbind as_int].
  now rewrite (max_ids_spec _ _ _ Hr).
Qed.

Lemma next_id_max_witness :
  exists m, In m [1; 3]%Z /\ Forall (fun i => (i <= m)%Z) [1; 3]%Z
            /\ next_id sample_tasks = Val (m + 1)%Z.
Proof.
  apply (proj2 (next_id_max sample_tasks [1; 3]%Z eq_refl)). discriminate.
Defined.

(** ** Dicts and lists updated in place *)

Lemma dict_get_set_same k v d : dict_get k (dict_set k v d) = Some v.
Proof.
  induction d as [|[k' v'] d IH]; simpl.
  - now rewrite String.eqb_refl.
  - destruct (String.eqb k' k) eqn:E; simpl; now rewrite E.
Qed.

Lemma dict_get_set_other k k' v d :
  k' <> k -> dict_get k' (dict_set k v d) = dict_get k' d.
Proof.
  intros Hne. induction d as [|[k0 v0] d IH]; simpl.
  - destruct (String.eqb_spec k k'); [congruence | reflexivity].
  - destruct (String.eqb_spec k0 k) as [->|Hk]; simpl.
    + destruct (String.eqb_spec k k'); [congruence | reflexivity].
    + now rewrite IH.
Qed.

Lemma in_dict_set kv k v d : In kv (dict_set k v d) -> In kv d \/ kv = (k, v).
Proof.
  induction d as [|[k0 v0] d IH]; simpl.
  - intros [<-|[]]. now right.
  - destruct (String.eqb_spec k0 k) as [->|Hk]; simpl.
    + intros [<-|H]; [now right | left; now right].
    + intros [<-|H]; [left; now left|]. destruct (IH H); [left; now right | now right].
Qed.

Lemma dict_set_keys k v d :
  map fst (dict_set k v d) = map fst d
  \/ (~ In k (map fst d) /\ map fst (dict_set k v d) = (map fst d ++ [k])%list).
Proof.
  induction d as [|[k0 v0] d IH]; simpl.
  - right. split; [tauto | reflexivity].
  - destruct (String.eqb_spec k0 k) as [->|Hk]; simpl.
    + now left.
    + destruct IH as [->|[Hn ->]]; [now left|].
      right. split; [tauto | reflexivity].
Qed.

Lemma dict_set_distinct k v d :
  distinct (map fst d) = true -> distinct (map fst (dict_set k v d)) = true.
Proof.
  rewrite !distinct_NoDup. intros H.
  destruct (dict_set_keys k v d) as [->|[Hn ->]]; [assumption|].
  apply NoDup_rev in H. rewrite <- (rev_involutive (_ ++ _)%list).
  apply NoDup_rev. rewrite rev_app_distr. simpl. constructor; [|assumption].
  now rewrite <- in_rev.
Qed.

Lemma dict_set_well_formed k v d :
  well_formed (JObj d) = true -> valid_utf8 k = true -> well_formed v = true ->
  well_formed (JObj (dict_set k v d)) = true.
Proof.
  unfold well_formed. cbn [distinct_keys encodable]. intros H Hk Hv.
  apply andb_true_iff in H as [H He]. apply andb_true_iff in H as [Hd Hs].
  apply andb_true_iff in Hv as [Hvk Hve].
  rewrite forallb_forall in He, Hs.
  rewrite dict_set_distinct by assumption. cbn [andb].
  apply andb_true_iff; split; apply forallb_forall; intros kv Hin;
    (apply in_dict_set in Hin as [Hin| ->]; [auto|]); cbn [fst snd]; [assumption|].
  now rewrite Hk, Hve.
Qed.

Lemma list_set_length i v l : List.length (list_set i v l) = List.length l.
Proof.
  revert i. induction l as [|x l IH]; intros [|i]; simpl; try reflexivity.
  now rewrite IH.
Qed.

Lemma list_set_same i v l x :
  nth_error l i = Some x -> nth_error (list_set i v l) i = Some v.
Proof.
  revert i. induction l as [|y l IH]; intros [|i]; simpl; try discriminate; auto.
Qed.

Lemma list_set_other i j v l :
  j <> i -> nth_error (list_set i v l) j = nth_error l j.
Proof.
  revert i j. induction l as [|y l IH]; intros [|i] [|j] H; simpl; try reflexivity;
    try congruence.
  apply IH. congruence.
Qed.

Lemma list_set_collection i v l :
  collection l -> is_task v = true -> collection (list_set i v l).
Proof.
  revert i. induction l as [|y l IH]; intros i Hl Hv; [destruct i; exact Hl|].
  apply collection_cons in Hl as [Hy Hl].
  destruct i as [|i]; simpl; apply collection_cons; split; auto.
Qed.

(** ** [find_task] and the comprehension of [cmd_delete] on a collection *)

Lemma has_id_obj tid d n :
  dict_get "id" d = Some (JInt n) -> has_id tid (JObj d) = (n =? tid)%Z.
Proof. intros H. unfold has_id, task_id. now rewrite H. Qed.

Lemma has_id_task_id tid t : has_id tid t = true <-> task_id t = Some tid.
Proof.
  unfold has_id. destruct (task_id t) as [n|]; [|split; discriminate].
  rewrite Z.eqb_eq. split; [now intros -> | now intros [= ->]].
Qed.

(** On a collection [find_task] raises nothing: it returns the first task
    with the id, which is a non-empty dict, or [None] when there is none. *)
Lemma find_task_collection tid tasks :
  collection tasks ->
  (exists i d,
      find_task tasks tid = Val (Some (i, d)) /\ d <> []
      /\ nth_error tasks i = Some (JObj d) /\ task_id (JObj d) = Some tid
      /\ (forall j u, (j < i)%nat -> nth_error tasks j = Some u -> task_id u <> Some tid))
  \/ (find_task tasks tid = Val None
      /\ forall t, In t tasks -> task_id t <> Some tid).
Proof.
  induction tasks as [|t tasks IH]; intros Hc.
  - right. split; [reflexivity | intros t []].
  - apply collection_cons in Hc as [Ht Hc].
    destruct (is_task_inv t Ht) as (d & n & -> & Hid & Hne & _).
    cbn [find_task py_get]. rewrite Hid. cbn [rbind py_eq_int as_int].
    pose proof (has_id_obj tid d n Hid) as Hh.
    destruct (n =? tid)%Z eqn:E.
    + left. exists 0%nat, d. repeat split; try assumption.
      * now apply has_id_task_id.
      * intros j u Hj. lia.
    + assert (Hnot : task_id (JObj d) <> Some tid).
      { intros H. apply has_id_task_id in H. congruence. }
      destruct (IH Hc) as [(i & d' & Hf & Hd' & Hnth & Htid & Hfirst)|[Hf Hnone]].
      * left. exists (S i), d'. rewrite Hf. repeat split; try assumption.
        intros [|j] u Hj Hu; simpl in Hu.
        -- injection Hu as <-. exact Hnot.
        -- apply (Hfirst j u); [lia | assumption].
      * right. rewrite Hf. split; [reflexivity|].
        intros u [<-|Hu]; [exact Hnot | now apply Hnone].
Qed.

Lemma without_id_filter tid tasks :
  collection tasks ->
  without_id tasks tid = Val (filter (fun t => negb (has_id tid t)) tasks).
Proof.
  induction tasks as [|t tasks IH]; intros Hc; [reflexivity|].
  apply collection_cons in Hc as [Ht Hc].
  destruct (is_task_inv t Ht) as (d & n & -> & Hid & _ & _).
  cbn [without_id py_get filter]. rewrite Hid, (IH Hc). cbn [rbind py_eq_int as_int].
  now rewrite (has_id_obj tid d n Hid).
Qed.

(** The delete command on a collection: the tasks with another id are
    written back when a task has the id, and nothing is written otherwise. *)
Lemma cmd_delete_run tid_arg tid rest w tasks :
  py_int tid_arg = IntOk tid -> holds w tasks -> collection tasks ->
  let kept := filter (fun t => negb (has_id tid t)) tasks in
  ((exists t, In t tasks /\ task_id t = Some tid) ->
   cmd_delete (tid_arg :: rest) w
   = Ok tt (printed ["Task " ++ str_of_int tid ++ " deleted successfully."]
              (write_file (json_dumps (JArr kept)) w))
   /\ holds (write_file (json_dumps (JArr kept)) w) kept)
  /\ ((forall t, In t tasks -> task_id t <> Some tid) ->
      cmd_delete (tid_arg :: rest) w
      = Ok tt (printed ["Task with ID " ++ str_of_int tid ++ " not found."] w)).
Proof.
  intros Hint Hh Hc kept.
  assert (Hk : forallb well_formed kept = true).
  { apply collection_well_formed, collection_filter, Hc. }
  destruct (save_holds kept w Hk) as [Hsave Hheld].
  unfold cmd_delete. rewrite Hint.
  rewrite (bind_ok _ _ _ _ _ (load_holds w tasks Hh)).
  unfold lift at 1. unfold bind at 1.
  destruct (find_task_collection tid tasks Hc)
    as [(i & d & Hf & Hd & Hnth & Htid & _)|[Hf Hnone]]; rewrite Hf.
  - split.
    + intros _. split; [|exact Hheld].
      destruct d as [|kv d]; [congruence|].
      unfold lift, bind. rewrite (without_id_filter tid tasks Hc).
      fold kept. now rewrite Hsave.
    + intros Hnone. exfalso. apply (Hnone (JObj d)); [|exact Htid].
      eapply nth_error_In. exact Hnth.
  - split; [|reflexivity].
    intros (t & Hin & Htid). now elim (Hnone t Hin).
Qed.

(** C10. On a collection that has a task with the given id, the delete
    command stores the tasks whose id differs, unchanged and in their
    order: no stored task has the id, also when several tasks shared it,
    and every task with another id is still stored. *)
Theorem delete_removes_id tid_arg tid rest w tasks :
  py_int tid_arg = IntOk tid -> holds w tasks -> collection tasks ->
  (exists t, In t tasks /\ task_id t = Some tid) ->
  let kept := filter (fun t => negb (has_id tid t)) tasks in
  let w' := printed ["Task " ++ str_of_int tid ++ " deleted successfully."]
              (write_file (json_dumps (JArr kept)) w) in
  cmd_delete (tid_arg :: rest) w = Ok tt w'
  /\ holds w' kept
  /\ (forall t, In t kept -> task_id t <> Some tid)
  /\ (forall t, In t tasks -> task_id t <> Some tid -> In t kept).
Proof.
  intros Hint Hh Hc Hex kept w'.
  destruct (cmd_delete_run tid_arg tid rest w tasks Hint Hh Hc) as [Hrun _].
  destruct (Hrun Hex) as [Hcmd Hheld].
  split; [exact Hcmd|]. split; [exact (holds_file _ w' kept eq_refl Hheld)|]. split.
  - intros u Hu Hid. apply filter_In in Hu as [_ Hu].
    apply has_id_task_id in Hid. rewrite Hid in Hu. discriminate.
  - intros u Hu Hid. apply filter_In. split; [assumption|].
    destruct (has_id tid u) eqn:E; [|reflexivity].
    apply has_id_task_id in E. contradiction.
Qed.

Lemma delete_removes_id_witness :
  let kept := filter (fun t => negb (has_id 1 t)) sample_tasks in
  let w' := printed ["Task " ++ str_of_int 1 ++ " deleted successfully."]
              (write_file (json_dumps (JArr kept)) sample_world) in
  cmd_delete ["1"] sample_world = Ok tt w'
  /\ holds w' kept
  /\ (forall t, In t kept -> task_id t <> Some 1%Z)
  /\ (forall t, In t sample_tasks -> task_id t <> Some 1%Z -> In t kept).
Proof.
  apply (delete_removes_id "1" 1%Z [] sample_world sample_tasks).
  - reflexivity.
  - unfold holds. cbn [file sample_world]. split; vm_compute; reflexivity.
  - reflexivity.
  - eexists. split; [left; reflexivity | reflexivity].
Defined.

(** ** Setting a str field of a task *)

Lemma str_field_set key k s d :
  str_field key (JObj (dict_set k (JStr s) d))
  = if String.eqb key k then Some s else str_field key (JObj d).
Proof.
  cbn [str_field]. destruct (String.eqb_spec key k) as [->|Hne].
  - now rewrite dict_get_set_same.
  - now rewrite dict_get_set_other.
Qed.

Lemma task_id_set k v d :
  k <> "id" -> task_id (JObj (dict_set k v d)) = task_id (JObj d).
Proof. intros H. cbn [task_id]. rewrite dict_get_set_other; [reflexivity | congruence]. Qed.

Lemma is_task_set k s d :
  k <> "id" -> valid_utf8 k = true -> valid_utf8 s = true ->
  is_task (JObj d) = true -> is_task (JObj (dict_set k (JStr s) d)) = true.
Proof.
  intros Hk Hv Hs H. unfold is_task in *.
  apply andb_true_iff in H as [Hw H].
  rewrite dict_set_well_formed
    by first [assumption | unfold well_formed; cbn [distinct_keys encodable]; exact Hs].
  cbn [andb]. rewrite task_id_set by assumption. rewrite !str_field_set.
  destruct (task_id (JObj d)); [|discriminate H].
  destruct (str_field "description" (JObj d)); [|discriminate H].
  destruct (str_field "status" (JObj d)); [|discriminate H].
  destruct (str_field "createdAt" (JObj d)); [|discriminate H].
  destruct (str_field "updatedAt" (JObj d)); [|discriminate H].
  repeat match goal with |- context [String.eqb ?a ?b] => destruct (String.eqb a b) end;
    reflexivity.
Qed.

(** C6. On a collection that has a task with the given id, the update
    command rewrites the first such task: its description becomes the new
    one and its updatedAt the current reading of the clock, while its id,
    status and createdAt stay as they were; every other task of the
    collection is stored unchanged, at its position. *)
Theorem update_changes_description tid_arg tid desc rest w tasks :
  py_int tid_arg = IntOk tid -> valid_utf8 desc = true ->
  valid_utf8 (clock w (ticks w)) = true ->
  holds w tasks -> collection tasks ->
  (exists t, In t tasks /\ task_id t = Some tid) ->
  exists i t t',
    let tasks' := list_set i t' tasks in
    let w' := printed ["Task " ++ str_of_int tid ++ " updated successfully."]
                (write_file (json_dumps (JArr tasks')) (tick w)) in
    cmd_update (tid_arg :: desc :: rest) w = Ok tt w'
    /\ holds w' tasks' /\ collection tasks'
    /\ nth_error tasks i = Some t /\ task_id t = Some tid
    /\ (forall j u, (j < i)%nat -> nth_error tasks j = Some u -> task_id u <> Some tid)
    /\ nth_error tasks' i = Some t'
    /\ str_field "description" t' = Some desc
    /\ str_field "updatedAt" t' = Some (clock w (ticks w))
    /\ task_id t' = Some tid
    /\ str_field "status" t' = str_field "status" t
    /\ str_field "createdAt" t' = str_field "createdAt" t
    /\ (forall j, j <> i -> nth_error tasks' j = nth_error tasks j)
    /\ List.length tasks' = List.length tasks.
Proof.
  intros Hint Hdesc Hclock Hh Hc (t0 & Hin0 & Htid0).
  destruct (find_task_collection tid tasks Hc)
    as [(i & d & Hf & Hd & Hnth & Htid & Hfirst)|[_ Hnone]]; [|now elim (Hnone t0 Hin0)].
  set (ts := clock w (ticks w)) in *.
  set (t' := JObj (dict_set "updatedAt" (JStr ts) (dict_set "description" (JStr desc) d))).
  exists i, (JObj d), t'. intros tasks' w'.
  assert (Htask : is_task (JObj d) = true).
  { unfold collection in Hc. rewrite forallb_forall in Hc. apply Hc.
    eapply nth_error_In. exact Hnth. }
  assert (Htask' : is_task t' = true).
  { unfold t'. apply is_task_set; try assumption; try reflexivity; try discriminate.
    apply is_task_set; try assumption; try reflexivity; discriminate. }
  assert (Hc' : collection tasks') by (now apply list_set_collection).
  destruct (save_holds tasks' (tick w) (collection_well_formed _ Hc')) as [Hsave Hheld].
  repeat match goal with |- _ /\ _ => split end.
  - unfold cmd_update. rewrite Hint.
    rewrite (bind_ok _ _ _ _ _ (load_holds w tasks Hh)).
    unfold lift at 1. unfold bind at 1. rewrite Hf.
    destruct d as [|kv d]; [congruence|].
    unfold bind at 1. unfold now_iso at 1. fold ts.
    unfold bind. fold t'. fold tasks'. now rewrite Hsave.
  - exact (holds_file _ w' tasks' eq_refl Hheld).
  - exact Hc'.
  - exact Hnth.
  - exact Htid.
  - exact Hfirst.
  - eapply list_set_same. exact Hnth.
  - unfold t'. now rewrite !str_field_set.
  - unfold t'. now rewrite !str_field_set.
  - unfold t'. rewrite !task_id_set by discriminate. exact Htid.
  - unfold t'. now rewrite !str_field_set.
  - unfold t'. now rewrite !str_field_set.
  - intros j Hj. now apply list_set_other.
  - apply list_set_length.
Qed.

Lemma update_changes_description_witness :
  exists i t t',
    let tasks' := list_set i t' sample_tasks in
    let w' := printed ["Task " ++ str_of_int 3 ++ " updated successfully."]
                (write_file (json_dumps (JArr tasks')) (tick sample_world)) in
    cmd_update ["3"; "Call Bob"] sample_world = Ok tt w'
    /\ holds w' tasks' /\ collection tasks'
    /\ nth_error sample_tasks i = Some t /\ task_id t = Some 3%Z
    /\ (forall j u, (j < i)%nat -> nth_error sample_tasks j = Some u ->
                    task_id u <> Some 3%Z)
    /\ nth_error tasks' i = Some t'
    /\ str_field "description" t' = Some "Call Bob"
    /\ str_field "updatedAt" t' = Some (clock sample_world (ticks sample_world))
    /\ task_id t' = Some 3%Z
    /\ str_field "status" t' = str_field "status" t
    /\ str_field "createdAt" t' = str_field "createdAt" t
    /\ (forall j, j <> i -> nth_error tasks' j = nth_error sample_tasks j)
    /\ List.length tasks' = List.length sample_tasks.
Proof.
  apply (update_changes_description "3" 3%Z "Call Bob" [] sample_world sample_tasks).
  - reflexivity.
  - reflexivity.
  - reflexivity.
  - unfold holds. cbn [file sample_world]. split; vm_compute; reflexivity.
  - reflexivity.
  - eexists. split; [right; left; reflexivity | reflexivity].
Defined.

(** ** Printing *)

Lemma printed_nil w : printed [] w = w.
Proof. destruct w. unfold printed, emit_all. cbn. now rewrite List.app_nil_r. Qed.

Lemma printed_cons line lines w :
  printed lines (emit (EPrint line) w) = printed (line :: lines) w.
Proof.
  unfold printed, emit_all, emit. cbn. now rewrite <- List.app_assoc.
Qed.

Lemma print_lines_printed lines : forall w, print_lines lines w = Ok tt (printed lines w).
Proof.
  induction lines as [|l lines IH]; intros w; cbn [print_lines].
  - unfold ret. now rewrite printed_nil.
  - unfold bind, print. rewrite IH. now rewrite printed_cons.
Qed.

Lemma is_task_fields t :
  is_task t = true ->
  exists d n de st cr up,
    t = JObj d /\ dict_get "id" d = Some (JInt n)
    /\ dict_get "description" d = Some (JStr de)
    /\ dict_get "status" d = Some (JStr st)
    /\ dict_get "createdAt" d = Some (JStr cr)
    /\ dict_get "updatedAt" d = Some (JStr up).
Proof.
  unfold is_task. intros H. apply andb_true_iff in H as [_ H].
  destruct t as [| | | | |d]; try discriminate H.
  cbn [task_id str_field] in H.
  destruct (dict_get "id" d) as [[| | n | | |]|] eqn:Hi; try discriminate H.
  destruct (dict_get "description" d) as [[| | | de | |]|] eqn:Hd; try discriminate H.
  destruct (dict_get "status" d) as [[| | | st | |]|] eqn:Hs; try discriminate H.
  destruct (dict_get "createdAt" d) as [[| | | cr | |]|] eqn:Hc; try discriminate H.
  destruct (dict_get "updatedAt" d) as [[| | | up | |]|] eqn:Hu; try discriminate H.
  exists d, n, de, st, cr, up. repeat split; assumption || reflexivity.
Qed.

Lemma fmt_task t : is_task t = true -> fmt t = Val (task_line t).
Proof.
  intros H. destruct (is_task_fields t H) as (d & n & de & st & cr & up & -> & Hi & Hd & Hs & Hc & Hu).
  unfold fmt, field, task_line, subscript. cbn [task_id str_field].
  now rewrite Hi, Hd, Hs, Hc, Hu.
Qed.

Lemma print_tasks_collection tasks : forall w,
  collection tasks -> print_tasks tasks w = Ok tt (printed (map task_line tasks) w).
Proof.
  induction tasks as [|t tasks IH]; intros w Hc; cbn [print_tasks map].
  - unfold ret. now rewrite printed_nil.
  - apply collection_cons in Hc as [Ht Hc].
    unfold bind, lift, print. rewrite (fmt_task t Ht). rewrite (IH _ Hc).
    now rewrite printed_cons.
Qed.

Lemma with_status_filter status tasks :
  collection tasks ->
  with_status tasks status = Val (filter (matches (Some status)) tasks).
Proof.
  induction tasks as [|t tasks IH]; intros Hc; [reflexivity|].
  apply collection_cons in Hc as [Ht Hc].
  cbn [with_status filter]. rewrite (IH Hc).
  destruct (is_task_fields t Ht) as (d & n & de & st & cr & up & -> & _ & _ & Hs & _).
  unfold matches. cbn [py_get str_field]. now rewrite Hs.
Qed.

(** C9. The list command on a collection prints one line per task that
    matches the filter, in the order of the collection; on the empty
    collection it prints "No tasks found." and, when the collection is not
    empty and no task matches, "No tasks match the filter."; in each case
    the run returns normally and only prints. *)
Theorem list_prints_matching chosen w tasks :
  holds w tasks -> collection tasks ->
  list_tasks chosen w = Ok tt (printed (listing chosen tasks) w)
  /\ (tasks = [] -> listing chosen tasks = ["No tasks found."])
  /\ (tasks <> [] -> filter (matches chosen) tasks = [] ->
      listing chosen tasks = ["No tasks match the filter."])
  /\ (filter (matches chosen) tasks <> [] ->
      listing chosen tasks = map task_line (filter (matches chosen) tasks)).
Proof.
  intros Hh Hc. repeat match goal with |- _ /\ _ => split end.
  - unfold list_tasks. rewrite (bind_ok _ _ _ _ _ (load_holds w tasks Hh)).
    destruct tasks as [|t tasks]; [reflexivity|].
    assert (Hf : match chosen with
                 | None => Val (t :: tasks)
                 | Some status => with_status (t :: tasks) status
                 end = Val (filter (matches chosen) (t :: tasks))).
    { destruct chosen as [status|]; [now apply with_status_filter|].
      f_equal. symmetry. apply forallb_filter_id. now apply forallb_forall. }
    unfold bind at 1. unfold lift. rewrite Hf.
    unfold listing. remember (filter (matches chosen) (t :: tasks)) as shown eqn:E.
    destruct shown as [|s shown]; [reflexivity|].
    apply print_tasks_collection. rewrite E. now apply collection_filter.
  - now intros ->.
  - intros Hne Hf. unfold listing. rewrite Hf. destruct tasks; [congruence | reflexivity].
  - intros Hf. unfold listing. destruct tasks as [|t tasks]; [now elim Hf|].
    destruct (filter (matches chosen) (t :: tasks)); [now elim Hf | reflexivity].
Qed.

Lemma list_prints_matching_witness :
  list_tasks (Some "done") sample_world
  = Ok tt (printed (listing (Some "done") sample_tasks) sample_world)
  /\ (sample_tasks = [] -> listing (Some "done") sample_tasks = ["No tasks found."])
  /\ (sample_tasks <> [] -> filter (matches (Some "done")) sample_tasks = [] ->
      listing (Some "done") sample_tasks = ["No tasks match the filter."])
  /\ (filter (matches (Some "done")) sample_tasks <> [] ->
      listing (Some "done") sample_tasks
      = map task_line (filter (matches (Some "done")) sample_tasks)).
Proof.
  apply (list_prints_matching (Some "done") sample_world sample_tasks).
  - unfold holds. cbn [file sample_world]. split; vm_compute; reflexivity.
  - reflexivity.
Defined.

Example list_samples :
  listing (Some "done") sample_tasks
  = ["[3] (done) Call Ann  - created: 2024-05-02T08:30:00Z updated: 2024-05-03T09:00:00Z"]
  /\ listing (Some "in-progress") sample_tasks = ["No tasks match the filter."]
  /\ List.length (listing None sample_tasks) = 2%nat
  /\ list_tasks None empty_world = Ok tt (printed ["No tasks found."] empty_world).
Proof. repeat split; reflexivity. Qed.

Lemma status_filter_normalized lowered :
  status_filter lowered
  = match normalized_filter lowered with
    | Some None => Unfiltered
    | Some (Some status) => Only status
    | None => InvalidFilter
    end.
Proof.
  unfold status_filter, normalized_filter, VALID_STATUSES, in_strs. cbn [existsb].
  destruct (String.eqb_spec lowered "todo") as [->|H1]; [reflexivity|].
  destruct (String.eqb_spec lowered "in-progress") as [->|H2]; [reflexivity|].
  destruct (String.eqb_spec lowered "inprogress") as [->|H3]; [reflexivity|].
  destruct (String.eqb_spec lowered "in_progress") as [->|H4]; [reflexivity|].
  destruct (String.eqb_spec lowered "done") as [->|H5]; [reflexivity|].
  destruct (String.eqb_spec lowered "completed") as [->|H6]; [reflexivity|].
  destruct (String.eqb_spec lowered "all") as [->|H7]; reflexivity.
Qed.

(** C7. The filter argument of the list command, lower-cased: [all] and no
    argument list every task; [todo], [in-progress] (also [inprogress],
    [in_progress]) and [done] (also [completed]) list the tasks of that
    status; every other argument prints the invalid-filter message and
    nothing else, without reading the collection. *)
Theorem list_filter_normalized :
  (forall w, cmd_list [] w = list_tasks None w)
  /\ (forall arg rest lowered w,
        str_lower arg = Some lowered ->
        cmd_list (arg :: rest) w
        = match normalized_filter lowered with
          | Some chosen => list_tasks chosen w
          | None =>
            Ok tt (printed ["Invalid status filter. Use: all | todo | in-progress | done"] w)
          end).
Proof.
  split; [reflexivity|]. intros arg rest lowered w Hl.
  unfold cmd_list. rewrite Hl, status_filter_normalized.
  destruct (normalized_filter lowered) as [[status|]|]; reflexivity.
Qed.

Lemma list_filter_normalized_witness :
  cmd_list ["In_Progress"] sample_world = list_tasks (Some "in-progress") sample_world
  /\ cmd_list ["COMPLETED"] sample_world = list_tasks (Some "done") sample_world
  /\ cmd_list ["All"] sample_world = list_tasks None sample_world
  /\ cmd_list ["urgent"] sample_world
     = Ok tt (printed ["Invalid status filter. Use: all | todo | in-progress | done"]
                sample_world).
Proof.
  split; [|split; [|split]].
  - exact (proj2 list_filter_normalized "In_Progress" [] "in_progress" sample_world eq_refl).
  - exact (proj2 list_filter_normalized "COMPLETED" [] "completed" sample_world eq_refl).
  - exact (proj2 list_filter_normalized "All" [] "all" sample_world eq_refl).
  - exact (proj2 list_filter_normalized "urgent" [] "urgent" sample_world eq_refl).
Defined.

(** ** Invalid input *)

Lemma not_in_strs s l : ~ In s l -> in_strs s l = false.
Proof.
  intros H. destruct (in_strs s l) eqn:E; [|reflexivity].
  apply in_strs_spec in E. contradiction.
Qed.

Lemma not_in_cons (s x : string) l : ~ In s (x :: l) -> String.eqb s x = false /\ ~ In s l.
Proof.
  intros H. split.
  - apply String.eqb_neq. intros ->. apply H. now left.
  - intros Hin. apply H. now right.
Qed.

(** A run that only prints leaves the file alone and writes nothing. *)
Lemma printed_no_mutation lines w :
  file (printed lines w) = file w
  /\ filter is_write (trace (printed lines w)) = filter is_write (trace w).
Proof.
  split; [reflexivity|]. unfold printed, emit_all. cbn [trace].
  rewrite filter_app. induction lines as [|l lines IH]; cbn [map filter is_write].
  - now rewrite List.app_nil_r.
  - exact IH.
Qed.

(** C3. On invalid input (an id that [int] rejects given to update, delete,
    mark-in-progress or mark-done, a missing required argument, a filter
    that the list command does not know, an unknown verb) the program
    reports it: it prints the error message or the usage line of that kind
    of input ([report]), and returns normally.  These prints are its only
    events: the storage file is not written and holds what it held. *)
Theorem invalid_input_only_prints argv e w :
  invalid_input argv e ->
  exists w',
    report e <> [] /\ w' = printed (report e) w /\ main argv w = Ok tt w'
    /\ file w' = file w
    /\ filter is_write (trace w') = filter is_write (trace w).
Proof.
  intros H.
  enough (G : main argv w = Ok tt (printed (report e) w)).
  { exists (printed (report e) w).
    destruct (printed_no_mutation (report e) w) as [Hf Ht].
    split; [destruct e; discriminate|]. now repeat split. }
  destruct H as
    [ prog verb tid desc Hv Hd Hi
    | prog verb cmd tid rest Hv Hc Hi
    | prog verb Hv
    | prog verb args Hv Hl
    | prog verb cmd Hv Hc
    | prog verb arg rest lowered Hv Ha Hn
    | prog verb cmd args Hv Hn ]; cbn [main report]; rewrite Hv.
  - destruct desc as [|x desc]; [congruence|].
    cbn [String.eqb Ascii.eqb Bool.eqb]. unfold cmd_update. now rewrite Hi.
  - destruct Hc as [<-|[<-|[<-|[]]]]; cbn [String.eqb Ascii.eqb Bool.eqb];
      unfold cmd_delete, cmd_mark; now rewrite Hi.
  - reflexivity.
  - destruct args as [|a [|b args]]; [reflexivity | reflexivity | simpl in Hl; lia].
  - destruct Hc as [<-|[<-|[<-|[]]]]; reflexivity.
  - cbn [String.eqb Ascii.eqb Bool.eqb]. unfold cmd_list.
    rewrite Ha, status_filter_normalized.
    unfold normalized_filter, accepted_filters in *.
    repeat (apply not_in_cons in Hn as [? Hn]).
    unfold in_strs. cbn [existsb].
    repeat match goal with E : String.eqb _ _ = false |- _ => rewrite E; clear E end.
    reflexivity.
  - unfold known_verbs in Hn.
    repeat (apply not_in_cons in Hn as [? Hn]).
    unfold in_strs. cbn [existsb].
    repeat match goal with E : String.eqb _ _ = false |- _ => rewrite E; clear E end.
    cbn [orb]. unfold bind, print, print_help. rewrite print_lines_printed.
    now rewrite printed_cons.
Qed.

Lemma invalid_input_only_prints_witness :
  exists w',
    report NonIntegerId <> []
    /\ w' = printed (report NonIntegerId) sample_world
    /\ main ["task_cli.py"; "delete"; "abc"] sample_world = Ok tt w'
    /\ file w' = file sample_world
    /\ filter is_write (trace w') = filter is_write (trace sample_world).
Proof.
  apply (invalid_input_only_prints ["task_cli.py"; "delete"; "abc"] NonIntegerId
           sample_world).
  apply (non_integer_id "task_cli.py" "delete" "delete" "abc" []).
  - reflexivity.
  - left. reflexivity.
  - reflexivity.
Defined.

Example invalid_input_samples :
  invalid_input ["task_cli.py"; "update"; "x1"; "new"; "text"] NonIntegerId
  /\ invalid_input ["task_cli.py"; "Mark-Done"; "1.0"] NonIntegerId
  /\ invalid_input ["task_cli.py"; "update"; "1"] (MissingArgument "update")
  /\ invalid_input ["task_cli.py"; "list"; "urgent"] UnknownFilter
  /\ invalid_input ["task_cli.py"; "remove"; "1"] (UnknownVerb "remove").
Proof.
  split; [|split; [|split; [|split]]].
  - now apply non_integer_id_update.
  - apply (non_integer_id _ _ "mark-done"); [reflexivity | right; right; now left | reflexivity].
  - apply missing_update_argument; [reflexivity | simpl; lia].
  - apply (unknown_filter _ _ _ _ "urgent"); [reflexivity | reflexivity |].
    intros H. repeat (destruct H as [H|H]; [discriminate H|]). exact H.
  - apply (unknown_verb _ _ "remove"); [reflexivity|].
    intros H. repeat (destruct H as [H|H]; [discriminate H|]). exact H.
Qed.

(** An id with one of the separators 28 to 31 before or after the digits
    is not an integer for [int]: the id commands report it and leave the
    file alone. *)
Example separator_id_rejected :
  py_int (String "031" "1") = IntValueError
  /\ py_int (String "1" (str1 "028")) = IntValueError
  /\ invalid_input ["task_cli.py"; "delete"; String "031" "1"] NonIntegerId
  /\ cmd_delete [String "031" "1"] sample_world
     = Ok tt (printed ["Invalid id. Id must be an integer."] sample_world)
  /\ cmd_update [String "031" "1"; "text"] sample_world
     = Ok tt (printed ["Invalid id. Id must be an integer."] sample_world)
  /\ cmd_mark [String "031" "1"] "done" sample_world
     = Ok tt (printed ["Invalid id. Id must be an integer."] sample_world).
Proof.
  split; [reflexivity|]. split; [reflexivity|].
  split; [|split; [|split]]; try reflexivity.
  apply (non_integer_id _ _ "delete"); [reflexivity | now left | reflexivity].
Qed.

(** ** The add command *)

(** C2, as amended.  The add command without a description argument
    prints its usage line and does nothing else. *)
Theorem add_without_description prog verb w :
  str_lower verb = Some "add" ->
  main [prog; verb] w = Ok tt (printed ["Usage: add " ++ quoted "description"] w)
  /\ cmd_add [] w = Ok tt (printed ["Usage: add " ++ quoted "description"] w).
Proof. intros H. cbn [main]. rewrite H. split; reflexivity. Qed.

Lemma add_without_description_witness :
  main ["task_cli.py"; "ADD"] sample_world
  = Ok tt (printed ["Usage: add " ++ quoted "description"] sample_world)
  /\ cmd_add [] sample_world
     = Ok tt (printed ["Usage: add " ++ quoted "description"] sample_world).
Proof. apply (add_without_description "task_cli.py" "ADD" sample_world). reflexivity. Defined.

(** C2, as stated, fails: with the empty string as description the add
    command prints no usage line; it stores a task whose description is
    empty. *)
Lemma add_empty_description_counterexample :
  main ["task_cli.py"; "add"; EmptyString] empty_world
  <> Ok tt (printed ["Usage: add " ++ quoted "description"] empty_world)
  /\ exists w',
       main ["task_cli.py"; "add"; EmptyString] empty_world = Ok tt w'
       /\ file w' <> file empty_world
       /\ stored_tasks w'
          = [JObj [("id", JInt 1); ("description", JStr EmptyString);
                   ("status", JStr "todo"); ("createdAt", JStr "2024-06-01T12:00:00Z");
                   ("updatedAt", JStr "2024-06-01T12:00:00Z")]]
       /\ filter is_write (trace w') <> [].
Proof.
  split.
  - vm_compute. discriminate.
  - eexists. split; [vm_compute; reflexivity|].
    split; [discriminate|]. split; [vm_compute; reflexivity | discriminate].
Qed.

(** ** Ids under sequences of add and delete commands *)

Lemma increasing_sorted ids : increasing ids = true <-> StronglySorted Z.lt ids.
Proof.
  induction ids as [|a ids IH].
  - split; [constructor | reflexivity].
  - destruct ids as [|b ids].
    + split; [repeat constructor | reflexivity].
    + change (increasing (a :: b :: ids)) with ((a <? b)%Z && increasing (b :: ids)).
      rewrite andb_true_iff, IH, Z.ltb_lt. split.
      * intros [Hab Hs]. constructor; [assumption|].
        inversion Hs as [|? ? Hs' Hall]; subst.
        constructor; [assumption|].
        eapply Forall_impl; [|exact Hall]. intros c Hc. cbv beta in *. lia.
      * intros Hs. inversion Hs as [|? ? Hs' Hall]; subst. split; [|assumption].
        now inversion Hall.
Qed.

Lemma sorted_snoc ids n :
  StronglySorted Z.lt ids -> Forall (fun i => (i < n)%Z) ids ->
  StronglySorted Z.lt (ids ++ [n])%list.
Proof.
  induction 1 as [|a ids Hs IH Hall]; intros Hn; cbn [List.app].
  - repeat constructor.
  - inversion Hn as [|? ? Han Hn']; subst. constructor; [now apply IH|].
    apply Forall_app. split; [assumption | now repeat constructor].
Qed.

Lemma sorted_NoDup ids : StronglySorted Z.lt ids -> NoDup ids.
Proof.
  induction 1 as [|a ids Hs IH Hall]; constructor; [|assumption].
  intros Hin. rewrite Forall_forall in Hall. specialize (Hall a Hin). lia.
Qed.

Lemma filter_ids (p : json -> bool) tasks : forall ids,
  map task_id tasks = map Some ids ->
  exists ids',
    map task_id (filter p tasks) = map Some ids'
    /\ (forall i, In i ids' -> In i ids)
    /\ (StronglySorted Z.lt ids -> StronglySorted Z.lt ids').
Proof.
  induction tasks as [|t tasks IH]; intros [|i ids] H; try discriminate H.
  - exists []. repeat split; auto.
  - cbn [map] in H. injection H as Ht Hr.
    destruct (IH ids Hr) as (ids' & Hm & Hin & Hs).
    cbn [filter]. destruct (p t).
    + exists (i :: ids'). split; [cbn [map]; now rewrite Ht, Hm|]. split.
      * intros j [<-|Hj]; [now left | right; now apply Hin].
      * intros Hsorted. inversion Hsorted as [|? ? Hs' Hall]; subst.
        constructor; [now apply Hs|].
        apply Forall_forall. intros j Hj. rewrite Forall_forall in Hall.
        now apply Hall, Hin.
    + exists ids'. split; [assumption|]. split.
      * intros j Hj. right. now apply Hin.
      * intros Hsorted. inversion Hsorted; subst. now apply Hs.
Qed.

Lemma py_int_ascii s : is_ascii s = true -> py_int s <> IntUnmodelled.
Proof.
  intros H. unfold py_int. rewrite H. cbn [negb].
  destruct (lstrip s) as [|c r]; [discriminate|].
  destruct (int_unsigned _); discriminate.
Qed.

(** The id that [next_id] gives to the next task of a collection. *)
Lemma next_id_greater tasks ids :
  map task_id tasks = map Some ids ->
  exists n, next_id tasks = Val n /\ Forall (fun i => (i < n)%Z) ids.
Proof.
  intros H. destruct tasks as [|t tasks].
  - destruct ids; [|discriminate H]. exists 1%Z. split; [reflexivity | constructor].
  - destruct ids as [|i ids]; [discriminate H|].
    cbn [map] in H. injection H as Ht Hr.
    exists (fold_left Z.max ids i + 1)%Z. split.
    + cbn [next_id]. rewrite (task_id_get _ _ Ht). cbn [rbind as_int].
      now rewrite (max_ids_spec _ _ _ Hr).
    + destruct (fold_max_spec ids i) as [_ Hall].
      eapply Forall_impl; [|exact Hall]. intros j Hj. cbv beta in *. lia.
Qed.

(** The add command on a collection: one task is appended, with the id
    of [next_id], the status todo and both timestamps equal to the reading
    of the clock. *)
Lemma cmd_add_run desc rest w tasks ids :
  valid_utf8 desc = true -> valid_utf8 (clock w (ticks w)) = true ->
  holds w tasks -> collection tasks -> map task_id tasks = map Some ids ->
  exists n,
    let ts := clock w (ticks w) in
    let t := JObj [("id", JInt n); ("description", JStr desc); ("status", JStr "todo");
                   ("createdAt", JStr ts); ("updatedAt", JStr ts)] in
    let w' := printed ["Task added successfully (ID: " ++ str_of_int n ++ ")"]
                (write_file (json_dumps (JArr (tasks ++ [t])%list)) (tick w)) in
    cmd_add (desc :: rest) w = Ok tt w'
    /\ holds w' (tasks ++ [t])%list /\ collection (tasks ++ [t])%list
    /\ Forall (fun i => (i < n)%Z) ids.
Proof.
  intros Hd Hc Hh Hcol Hids.
  destruct (next_id_greater tasks ids Hids) as (n & Hn & Hall).
  exists n. intros ts t w'.
  assert (Ht : is_task t = true).
  { unfold is_task, well_formed, t, ts. cbn. now rewrite Hd, Hc. }
  assert (Hcol' : collection (tasks ++ [t])%list).
  { apply collection_app. split; [assumption|]. unfold collection. cbn [forallb].
    now rewrite Ht. }
  destruct (save_holds _ (tick w) (collection_well_formed _ Hcol')) as [Hsave Hheld].
  split; [|split; [|split]]; try assumption.
  - unfold cmd_add. rewrite (bind_ok _ _ _ _ _ (load_holds w tasks Hh)).
    unfold lift at 1. unfold bind at 1. rewrite Hn.
    unfold bind at 1. unfold now_iso at 1. fold ts. fold t.
    unfold bind. now rewrite Hsave.
Qed.

(** What every sequence of add and delete commands maintains. *)
Lemma run_ops_invariant ops : forall w tasks ids,
  holds w tasks -> collection tasks -> clock_ok w ->
  map task_id tasks = map Some ids -> StronglySorted Z.lt ids ->
  forallb op_ok ops = true ->
  exists w' tasks' ids',
    run_ops ops w = Ok tt w' /\ holds w' tasks' /\ collection tasks' /\ clock_ok w'
    /\ map task_id tasks' = map Some ids' /\ StronglySorted Z.lt ids'.
Proof.
  induction ops as [|o ops IH]; intros w tasks ids Hh Hc Hclk Hids Hs Hok.
  - exists w, tasks, ids. repeat split; assumption.
  - cbn [forallb] in Hok. apply andb_true_iff in Hok as [Ho Hok].
    cbn [run_ops]. destruct o as [desc|arg]; cbn [op_ok] in Ho.
    + change (main (argv_of (Add desc))) with (cmd_add [desc]).
      destruct (cmd_add_run desc [] w tasks ids Ho (Hclk _) Hh Hc Hids)
        as (n & Hrun & Hh' & Hc' & Hall).
      cbv zeta in Hrun, Hh', Hc'.
      rewrite (bind_ok _ _ _ _ _ Hrun).
      assert (Hids' : map task_id
                        (tasks ++ [JObj [("id", JInt n); ("description", JStr desc);
                                         ("status", JStr "todo");
                                         ("createdAt", JStr (clock w (ticks w)));
                                         ("updatedAt", JStr (clock w (ticks w)))]])%list
                      = map Some (ids ++ [n])%list).
      { rewrite !map_app, Hids. reflexivity. }
      exact (IH _ _ _ Hh' Hc' Hclk Hids' (sorted_snoc _ _ Hs Hall) Hok).
    + change (main (argv_of (Delete arg))) with (cmd_delete [arg]).
      destruct (py_int arg) as [tid| |] eqn:Hint; [| |now elim (py_int_ascii arg Ho)].
      * destruct (cmd_delete_run arg tid [] w tasks Hint Hh Hc) as [Hfound Hnone].
        destruct (find_task_collection tid tasks Hc)
          as [(i & d & _ & _ & Hnth & Htid & _)|[_ Hno]].
        -- destruct Hfound as [Hrun Hh'].
           { exists (JObj d). split; [eapply nth_error_In; exact Hnth | exact Htid]. }
           rewrite (bind_ok _ _ _ _ _ Hrun).
           destruct (filter_ids (fun t => negb (has_id tid t)) tasks ids Hids)
             as (ids' & Hm & _ & Hs').
           apply (IH _ (filter (fun t => negb (has_id tid t)) tasks) ids');
             [ exact (holds_file _ _ _ eq_refl Hh') | now apply collection_filter
             | exact Hclk | exact Hm | exact (Hs' Hs) | exact Hok ].
        -- rewrite (bind_ok _ _ _ _ _ (Hnone Hno)).
           apply (IH _ tasks ids);
             [ exact (holds_file _ _ _ eq_refl Hh) | exact Hc | exact Hclk
             | exact Hids | exact Hs | exact Hok ].
      * assert (Hrun : cmd_delete [arg] w
                       = Ok tt (printed ["Invalid id. Id must be an integer."] w)).
        { unfold cmd_delete. now rewrite Hint. }
        rewrite (bind_ok _ _ _ _ _ Hrun).
        apply (IH _ tasks ids);
          [ exact (holds_file _ _ _ eq_refl Hh) | exact Hc | exact Hclk
          | exact Hids | exact Hs | exact Hok ].
Qed.

(** C1, as amended.  After every sequence of add and delete commands that
    starts from the empty collection, the ids of the stored tasks are
    strictly increasing in the order of the collection, hence pairwise
    distinct, and a further add command appends a task whose id is greater
    than the id of every stored task. *)
Theorem add_assigns_greater_id ops w0 :
  holds w0 [] -> clock_ok w0 -> forallb op_ok ops = true ->
  exists w tasks ids,
    run_ops ops w0 = Ok tt w /\ holds w tasks /\ collection tasks
    /\ map task_id tasks = map Some ids /\ increasing ids = true /\ NoDup ids
    /\ forall desc, valid_utf8 desc = true ->
         exists w' t n,
           main (argv_of (Add desc)) w = Ok tt w'
           /\ holds w' (tasks ++ [t])%list /\ task_id t = Some n
           /\ str_field "description" t = Some desc
           /\ Forall (fun i => (i < n)%Z) ids.
Proof.
  intros Hh Hclk Hok.
  destruct (run_ops_invariant ops w0 [] [] Hh eq_refl Hclk eq_refl
              (SSorted_nil _) Hok)
    as (w & tasks & ids & Hrun & Hh' & Hc & Hclk' & Hids & Hs).
  exists w, tasks, ids.
  split; [exact Hrun|]. split; [exact Hh'|]. split; [exact Hc|]. split; [exact Hids|].
  split; [now apply increasing_sorted|]. split; [now apply sorted_NoDup|].
  intros desc Hd.
  destruct (cmd_add_run desc [] w tasks ids Hd (Hclk' _) Hh' Hc Hids)
    as (n & Hadd & Hheld & _ & Hall).
  cbv zeta in Hadd, Hheld.
  eexists _, _, n. split; [exact Hadd|]. split; [exact Hheld|].
  split; [reflexivity|]. split; [reflexivity | exact Hall].
Qed.

Lemma sample_clock_ok : clock_ok empty_world.
Proof.
  intros n. cbn [clock empty_world]. unfold sample_clock.
  apply whole_valid. apply whole_append; [now apply ascii_whole|].
  apply whole_append; [apply ascii_whole, str_of_int_ascii | now apply ascii_whole].
Qed.

Lemma add_assigns_greater_id_witness :
  exists w tasks ids,
    run_ops [Add "a"; Add "b"; Delete "1"; Add "c"] empty_world = Ok tt w
    /\ holds w tasks /\ collection tasks
    /\ map task_id tasks = map Some ids /\ increasing ids = true /\ NoDup ids
    /\ forall desc, valid_utf8 desc = true ->
         exists w' t n,
           main (argv_of (Add desc)) w = Ok tt w'
           /\ holds w' (tasks ++ [t])%list /\ task_id t = Some n
           /\ str_field "description" t = Some desc
           /\ Forall (fun i => (i < n)%Z) ids.
Proof.
  apply (add_assigns_greater_id [Add "a"; Add "b"; Delete "1"; Add "c"] empty_world).
  - reflexivity.
  - exact sample_clock_ok.
  - reflexivity.
Defined.

(** C1, as stated, fails: add, delete of the task added, add again assigns
    the id 1 twice. *)
Lemma reused_id_counterexample :
  assigned_ids [Add "a"; Delete "1"; Add "b"] empty_world = [1; 1]%Z
  /\ increasing (assigned_ids [Add "a"; Delete "1"; Add "b"] empty_world) = false
  /\ ~ NoDup (assigned_ids [Add "a"; Delete "1"; Add "b"] empty_world).
Proof.
  assert (E : assigned_ids [Add "a"; Delete "1"; Add "b"] empty_world = [1; 1]%Z)
    by (vm_compute; reflexivity).
  rewrite E. split; [reflexivity|]. split; [reflexivity|].
  intros H. inversion H as [|? ? Hin _]; subst. apply Hin. now left.
Qed.

Example assigned_ids_samples :
  assigned_ids [Add "a"; Add "b"; Add "c"] empty_world = [1; 2; 3]%Z
  /\ assigned_ids [Add "a"; Add "b"; Delete "1"; Add "c"] empty_world = [1; 2; 3]%Z
  /\ assigned_ids [Add "a"; Add "b"; Delete "2"; Add "c"] empty_world = [1; 2; 2]%Z.
Proof. repeat split; vm_compute; reflexivity. Qed.

(** ** The scenario of the specification, run *)

Example scenario :
  exists w,
    run_all [["add"; "Buy milk"]; ["mark-in-progress"; "1"]; ["list"; "todo"];
             ["list"; "in-progress"]; ["delete"; "1"]; ["list"]] empty_world
    = Ok tt w
    /\ lines_of w
       = ["Task added successfully (ID: 1)";
          "Task 1 marked as in-progress.";
          "No tasks match the filter.";
          "[1] (in-progress) Buy milk  - created: 2024-06-01T12:00:00Z updated: 2024-06-02T12:00:00Z";
          "Task 1 deleted successfully.";
          "No tasks found."]
    /\ file w = Some "[]".
Proof. eexists. split; [vm_compute; reflexivity|]. split; reflexivity. Qed.

Example help_printed_once :
  main ["task_cli.py"; "--help"] empty_world = Ok tt (printed help_lines empty_world)
  /\ main ["task_cli.py"] empty_world = Ok tt (printed help_lines empty_world)
  /\ main ["task_cli.py"; "Frobnicate"; "1"] empty_world
     = Ok tt (printed ("Unknown command: frobnicate" :: help_lines) empty_world).
Proof. repeat split. Qed.

(** * Further properties of the command handlers *)

(** ** The mark commands *)

(** The mark command on a collection in which [find_task] finds the task
    at position [i]. *)
Lemma cmd_mark_run tid_arg tid rest status w tasks i d :
  py_int tid_arg = IntOk tid -> valid_utf8 status = true ->
  valid_utf8 (clock w (ticks w)) = true ->
  holds w tasks -> collection tasks ->
  find_task tasks tid = Val (Some (i, d)) -> d <> [] ->
  nth_error tasks i = Some (JObj d) ->
  let t' := JObj (dict_set "updatedAt" (JStr (clock w (ticks w)))
                    (dict_set "status" (JStr status) d)) in
  let tasks' := list_set i t' tasks in
  let w' := printed ["Task " ++ str_of_int tid ++ " marked as " ++ status ++ "."]
              (write_file (json_dumps (JArr tasks')) (tick w)) in
  cmd_mark (tid_arg :: rest) status w = Ok tt w'
  /\ holds w' tasks' /\ collection tasks' /\ is_task t' = true.
Proof.
  intros Hint Hst Hclock Hh Hc Hf Hd Hnth t' tasks' w'.
  assert (Htask : is_task (JObj d) = true).
  { unfold collection in Hc. rewrite forallb_forall in Hc. apply Hc.
    eapply nth_error_In. exact Hnth. }
  assert (Htask' : is_task t' = true).
  { unfold t'. apply is_task_set; try assumption; try reflexivity; try discriminate.
    apply is_task_set; try assumption; try reflexivity; discriminate. }
  assert (Hc' : collection tasks') by (now apply list_set_collection).
  destruct (save_holds tasks' (tick w) (collection_well_formed _ Hc')) as [Hsave Hheld].
  split; [|split; [|split]]; try assumption.
  - unfold cmd_mark. rewrite Hint.
    rewrite (bind_ok _ _ _ _ _ (load_holds w tasks Hh)).
    unfold lift at 1. unfold bind at 1. rewrite Hf.
    destruct d as [|kv d]; [congruence|].
    unfold bind at 1. unfold now_iso at 1.
    unfold bind. fold t'. fold tasks'. now rewrite Hsave.
Qed.

(** X1. On a collection that has a task with the given id, the mark
    command rewrites the first such task: its status becomes the one given
    and its updatedAt the current reading of the clock, while its id,
    description and createdAt stay as they were; every other task is stored
    unchanged, at its position. *)
Theorem mark_sets_status tid_arg tid rest status w tasks :
  py_int tid_arg = IntOk tid -> valid_utf8 status = true ->
  valid_utf8 (clock w (ticks w)) = true ->
  holds w tasks -> collection tasks ->
  (exists t, In t tasks /\ task_id t = Some tid) ->
  exists i t t',
    let tasks' := list_set i t' tasks in
    let w' := printed ["Task " ++ str_of_int tid ++ " marked as " ++ status ++ "."]
                (write_file (json_dumps (JArr tasks')) (tick w)) in
    cmd_mark (tid_arg :: rest) status w = Ok tt w'
    /\ holds w' tasks' /\ collection tasks'
    /\ nth_error tasks i = Some t /\ task_id t = Some tid
    /\ (forall j u, (j < i)%nat -> nth_error tasks j = Some u -> task_id u <> Some tid)
    /\ nth_error tasks' i = Some t'
    /\ str_field "status" t' = Some status
    /\ str_field "updatedAt" t' = Some (clock w (ticks w))
    /\ task_id t' = Some tid
    /\ str_field "description" t' = str_field "description" t
    /\ str_field "createdAt" t' = str_field "createdAt" t
    /\ (forall j, j <> i -> nth_error tasks' j = nth_error tasks j)
    /\ List.length tasks' = List.length tasks.
Proof.
  intros Hint Hst Hclock Hh Hc (t0 & Hin0 & Htid0).
  destruct (find_task_collection tid tasks Hc)
    as [(i & d & Hf & Hd & Hnth & Htid & Hfirst)|[_ Hnone]]; [|now elim (Hnone t0 Hin0)].
  destruct (cmd_mark_run tid_arg tid rest status w tasks i d
              Hint Hst Hclock Hh Hc Hf Hd Hnth) as (Hrun & Hheld & Hc' & _).
  cbv zeta in Hrun, Hheld, Hc'.
  exists i, (JObj d), (JObj (dict_set "updatedAt" (JStr (clock w (ticks w)))
                               (dict_set "status" (JStr status) d))).
  cbv zeta. repeat match goal with |- _ /\ _ => split end;
    try assumption.
  - eapply list_set_same. exact Hnth.
  - now rewrite !str_field_set.
  - now rewrite !str_field_set.
  - rewrite !task_id_set by discriminate. exact Htid.
  - now rewrite !str_field_set.
  - now rewrite !str_field_set.
  - intros j Hj. now apply list_set_other.
  - apply list_set_length.
Qed.

Lemma mark_sets_status_witness :
  exists i t t',
    let tasks' := list_set i t' sample_tasks in
    let w' := printed ["Task " ++ str_of_int 1 ++ " marked as " ++ "done" ++ "."]
                (write_file (json_dumps (JArr tasks')) (tick sample_world)) in
    cmd_mark ["1"] "done" sample_world = Ok tt w'
    /\ holds w' tasks' /\ collection tasks'
    /\ nth_error sample_tasks i = Some t /\ task_id t = Some 1%Z
    /\ (forall j u, (j < i)%nat -> nth_error sample_tasks j = Some u ->
                    task_id u <> Some 1%Z)
    /\ nth_error tasks' i = Some t'
    /\ str_field "status" t' = Some "done"
    /\ str_field "updatedAt" t' = Some (clock sample_world (ticks sample_world))
    /\ task_id t' = Some 1%Z
    /\ str_field "description" t' = str_field "description" t
    /\ str_field "createdAt" t' = str_field "createdAt" t
    /\ (forall j, j <> i -> nth_error tasks' j = nth_error sample_tasks j)
    /\ List.length tasks' = List.length sample_tasks.
Proof.
  apply (mark_sets_status "1" 1%Z [] "done" sample_world sample_tasks).
  - reflexivity.
  - reflexivity.
  - reflexivity.
  - unfold holds. cbn [file sample_world]. split; vm_compute; reflexivity.
  - reflexivity.
  - eexists. split; [left; reflexivity | reflexivity].
Defined.

(** ** An id that no task has *)

(** X2. When no task of the collection has the given id (in particular
    when the collection is empty or the file absent), update, delete and
    mark only print the not-found line: nothing is written. *)
Theorem id_not_found_only_prints tid_arg tid desc rest status w tasks :
  py_int tid_arg = IntOk tid -> holds w tasks -> collection tasks ->
  (forall t, In t tasks -> task_id t <> Some tid) ->
  let w' := printed ["Task with ID " ++ str_of_int tid ++ " not found."] w in
  cmd_update (tid_arg :: desc :: rest) w = Ok tt w'
  /\ cmd_delete (tid_arg :: rest) w = Ok tt w'
  /\ cmd_mark (tid_arg :: rest) status w = Ok tt w'
  /\ file w' = file w /\ filter is_write (trace w') = filter is_write (trace w).
Proof.
  intros Hint Hh Hc Hnone w'.
  assert (Hf : find_task tasks tid = Val None).
  { destruct (find_task_collection tid tasks Hc)
      as [(i & d & _ & _ & Hnth & Htid & _)|[Hf _]]; [|exact Hf].
    exfalso. apply (Hnone (JObj d)); [|exact Htid]. eapply nth_error_In. exact Hnth. }
  destruct (printed_no_mutation ["Task with ID " ++ str_of_int tid ++ " not found."] w)
    as [Hfile Hwr].
  split; [|split; [|split; [|split]]]; try assumption.
  - unfold cmd_update. rewrite Hint.
    rewrite (bind_ok _ _ _ _ _ (load_holds w tasks Hh)).
    unfold lift, bind. now rewrite Hf.
  - unfold cmd_delete. rewrite Hint.
    rewrite (bind_ok _ _ _ _ _ (load_holds w tasks Hh)).
    unfold lift, bind. now rewrite Hf.
  - unfold cmd_mark. rewrite Hint.
    rewrite (bind_ok _ _ _ _ _ (load_holds w tasks Hh)).
    unfold lift, bind. now rewrite Hf.
Qed.

Lemma id_not_found_only_prints_witness :
  let w' := printed ["Task with ID " ++ str_of_int 2 ++ " not found."] sample_world in
  cmd_update ["2"; "x"] sample_world = Ok tt w'
  /\ cmd_delete ["2"] sample_world = Ok tt w'
  /\ cmd_mark ["2"] "done" sample_world = Ok tt w'
  /\ file w' = file sample_world
  /\ filter is_write (trace w') = filter is_write (trace sample_world).
Proof.
  apply (id_not_found_only_prints "2" 2%Z "x" [] "done" sample_world sample_tasks).
  - reflexivity.
  - unfold holds. cbn [file sample_world]. split; vm_compute; reflexivity.
  - reflexivity.
  - intros t [<-|[<-|[]]]; discriminate.
Defined.

(** ** The add command through the dispatcher *)

Lemma collection_ids tasks :
  collection tasks -> exists ids, map task_id tasks = map Some ids.
Proof.
  induction tasks as [|t tasks IH]; intros Hc; [now exists []|].
  apply collection_cons in Hc as [Ht Hc].
  destruct (IH Hc) as (ids & Hids).
  destruct (is_task_inv t Ht) as (d & n & -> & Hid & _ & _).
  exists (n :: ids). cbn [map task_id]. now rewrite Hid, Hids.
Qed.

(** X3. The add verb, in any letter case, followed by one or more words:
    the words joined by single spaces become the description of a new task
    that is appended to the collection with status todo, createdAt and
    updatedAt both equal to the reading of the clock, and an id that no
    stored task has; the tasks already stored keep their order and
    content. *)
Theorem add_appends_task prog verb args w tasks :
  str_lower verb = Some "add" -> args <> [] ->
  valid_utf8 (join " " args) = true -> valid_utf8 (clock w (ticks w)) = true ->
  holds w tasks -> collection tasks ->
  exists n t,
    let w' := printed ["Task added successfully (ID: " ++ str_of_int n ++ ")"]
                (write_file (json_dumps (JArr (tasks ++ [t])%list)) (tick w)) in
    main (prog :: verb :: args) w = Ok tt w'
    /\ holds w' (tasks ++ [t])%list /\ collection (tasks ++ [t])%list
    /\ task_id t = Some n
    /\ (forall u, In u tasks -> task_id u <> Some n)
    /\ str_field "description" t = Some (join " " args)
    /\ str_field "status" t = Some "todo"
    /\ str_field "createdAt" t = Some (clock w (ticks w))
    /\ str_field "updatedAt" t = Some (clock w (ticks w)).
Proof.
  intros Hv Hargs Hd Hclock Hh Hc.
  destruct (collection_ids tasks Hc) as (ids & Hids).
  destruct (cmd_add_run (join " " args) [] w tasks ids Hd Hclock Hh Hc Hids)
    as (n & Hrun & Hheld & Hc' & Hall).
  cbv zeta in Hrun, Hheld, Hc'.
  eexists n, _. cbv zeta.
  split; [|split; [exact Hheld|split; [exact Hc'|]]].
  - cbn [main]. rewrite Hv. cbn [String.eqb Ascii.eqb Bool.eqb].
    destruct args as [|a args]; [congruence | exact Hrun].
  - split; [reflexivity|]. split; [|repeat split].
    intros u Hu Hid. rewrite Forall_forall in Hall.
    assert (Hin : In (Some n) (map task_id tasks)).
    { rewrite <- Hid. now apply in_map. }
    rewrite Hids in Hin. apply in_map_iff in Hin as (m & [= ->] & Hm).
    specialize (Hall n Hm). lia.
Qed.

Lemma add_appends_task_witness :
  exists n t,
    let w' := printed ["Task added successfully (ID: " ++ str_of_int n ++ ")"]
                (write_file (json_dumps (JArr (sample_tasks ++ [t])%list))
                   (tick sample_world)) in
    main ["task_cli.py"; "Add"; "Buy"; "milk"] sample_world = Ok tt w'
    /\ holds w' (sample_tasks ++ [t])%list /\ collection (sample_tasks ++ [t])%list
    /\ task_id t = Some n
    /\ (forall u, In u sample_tasks -> task_id u <> Some n)
    /\ str_field "description" t = Some (join " " ["Buy"; "milk"])
    /\ str_field "status" t = Some "todo"
    /\ str_field "createdAt" t = Some (clock sample_world (ticks sample_world))
    /\ str_field "updatedAt" t = Some (clock sample_world (ticks sample_world)).
Proof.
  apply (add_appends_task "task_cli.py" "Add" ["Buy"; "milk"] sample_world sample_tasks).
  - reflexivity.
  - discriminate.
  - reflexivity.
  - reflexivity.
  - unfold holds. cbn [file sample_world]. split; vm_compute; reflexivity.
  - reflexivity.
Defined.

(** ** Marking, then listing *)

(** What the list command prints on a collection. *)
Lemma list_tasks_listing chosen w tasks :
  holds w tasks -> collection tasks ->
  list_tasks chosen w = Ok tt (printed (listing chosen tasks) w).
Proof.
  intros Hh Hc. unfold list_tasks. rewrite (bind_ok _ _ _ _ _ (load_holds w tasks Hh)).
  destruct tasks as [|t tasks]; [reflexivity|].
  assert (Hf : match chosen with
               | None => Val (t :: tasks)
               | Some status => with_status (t :: tasks) status
               end = Val (filter (matches chosen) (t :: tasks))).
  { destruct chosen as [status|]; [now apply with_status_filter|].
    f_equal. symmetry. apply forallb_filter_id. now apply forallb_forall. }
  unfold bind at 1. unfold lift. rewrite Hf.
  unfold listing. remember (filter (matches chosen) (t :: tasks)) as shown eqn:E.
  destruct shown as [|s shown]; [reflexivity|].
  apply print_tasks_collection. rewrite E. now apply collection_filter.
Qed.

Lemma listing_shown chosen tasks t :
  In t (filter (matches chosen) tasks) ->
  listing chosen tasks = map task_line (filter (matches chosen) tasks).
Proof.
  intros Hin. unfold listing. destruct tasks as [|u tasks]; [contradiction|].
  destruct (filter (matches chosen) (u :: tasks)); [contradiction | reflexivity].
Qed.

(** X4. After the mark command has given a task the status [status], the
    list command with that status as filter prints the line of the task,
    and with any other status as filter it does not show the task. *)
Theorem mark_then_list tid_arg tid rest status w tasks :
  py_int tid_arg = IntOk tid -> valid_utf8 status = true ->
  valid_utf8 (clock w (ticks w)) = true ->
  holds w tasks -> collection tasks ->
  (exists t, In t tasks /\ task_id t = Some tid) ->
  exists w' tasks' t',
    cmd_mark (tid_arg :: rest) status w = Ok tt w'
    /\ holds w' tasks' /\ In t' tasks' /\ task_id t' = Some tid
    /\ list_tasks (Some status) w'
       = Ok tt (printed (map task_line (filter (matches (Some status)) tasks')) w')
    /\ In (task_line t') (map task_line (filter (matches (Some status)) tasks'))
    /\ (forall other, other <> status ->
          list_tasks (Some other) w' = Ok tt (printed (listing (Some other) tasks') w')
          /\ ~ In t' (filter (matches (Some other)) tasks')).
Proof.
  intros Hint Hst Hclock Hh Hc (t0 & Hin0 & Htid0).
  destruct (find_task_collection tid tasks Hc)
    as [(i & d & Hf & Hd & Hnth & Htid & _)|[_ Hnone]]; [|now elim (Hnone t0 Hin0)].
  destruct (cmd_mark_run tid_arg tid rest status w tasks i d
              Hint Hst Hclock Hh Hc Hf Hd Hnth) as (Hrun & Hheld & Hc' & _).
  cbv zeta in Hrun, Hheld, Hc'.
  set (t' := JObj (dict_set "updatedAt" (JStr (clock w (ticks w)))
                     (dict_set "status" (JStr status) d))) in *.
  set (tasks' := list_set i t' tasks) in *.
  assert (Hin : In t' tasks').
  { eapply nth_error_In. eapply list_set_same. exact Hnth. }
  assert (Hs : str_field "status" t' = Some status).
  { unfold t'. now rewrite !str_field_set. }
  assert (Hm : In t' (filter (matches (Some status)) tasks')).
  { apply filter_In. split; [exact Hin|]. unfold matches. rewrite Hs.
    apply String.eqb_refl. }
  eexists _, tasks', t'.
  split; [exact Hrun|]. split; [exact Hheld|]. split; [exact Hin|]. split.
  { unfold t'. rewrite !task_id_set by discriminate. exact Htid. }
  split.
  { rewrite (list_tasks_listing _ _ tasks' Hheld Hc').
    now rewrite (listing_shown _ _ t' Hm). }
  split; [now apply in_map|].
  intros other Hother. split; [now apply list_tasks_listing|].
  intros Hin'. apply filter_In in Hin' as [_ Hin']. unfold matches in Hin'.
  rewrite Hs in Hin'. apply String.eqb_eq in Hin'. congruence.
Qed.

Lemma mark_then_list_witness :
  exists w' tasks' t',
    cmd_mark ["1"] "done" sample_world = Ok tt w'
    /\ holds w' tasks' /\ In t' tasks' /\ task_id t' = Some 1%Z
    /\ list_tasks (Some "done") w'
       = Ok tt (printed (map task_line (filter (matches (Some "done")) tasks')) w')
    /\ In (task_line t') (map task_line (filter (matches (Some "done")) tasks'))
    /\ (forall other, other <> "done" ->
          list_tasks (Some other) w' = Ok tt (printed (listing (Some other) tasks') w')
          /\ ~ In t' (filter (matches (Some other)) tasks')).
Proof.
  apply (mark_then_list "1" 1%Z [] "done" sample_world sample_tasks).
  - reflexivity.
  - reflexivity.
  - reflexivity.
  - unfold holds. cbn [file sample_world]. split; vm_compute; reflexivity.
  - reflexivity.
  - eexists. split; [left; reflexivity | reflexivity].
Defined.

(** ** A corrupt storage file and the next add *)

(** X5. When the storage file is text that is not JSON, or JSON that is
    not an array, the add command reports the corruption, takes the
    collection as empty and overwrites the file: afterwards the file holds
    exactly the new task, with id 1, and the old content is gone. *)
Theorem add_overwrites_corrupt_file desc rest w text :
  file w = Some text -> valid_utf8 text = true ->
  (json_loads text = JSONDecodeError
   \/ exists v, json_loads text = Loaded v /\ forall items, v <> JArr items) ->
  valid_utf8 desc = true -> valid_utf8 (clock w (ticks w)) = true ->
  exists warning t w',
    cmd_add (desc :: rest) w = Ok tt w'
    /\ In warning ["Corrupt JSON in tasks file. Resetting to empty.";
                   "Corrupt tasks file: expected a list. Resetting to empty."]
    /\ w' = printed ["Task added successfully (ID: 1)"]
              (write_file (json_dumps (JArr [t])) (tick (printed [warning] w)))
    /\ holds w' [t] /\ task_id t = Some 1%Z
    /\ str_field "description" t = Some desc.
Proof.
  intros Hfile Hv Hbad Hd Hclock.
  set (t := JObj [("id", JInt 1); ("description", JStr desc); ("status", JStr "todo");
                  ("createdAt", JStr (clock w (ticks w)));
                  ("updatedAt", JStr (clock w (ticks w)))]).
  assert (Ht : forallb well_formed [t] = true).
  { unfold t, well_formed. cbn. now rewrite Hd, Hclock. }
  assert (Hload : exists warning,
             In warning ["Corrupt JSON in tasks file. Resetting to empty.";
                         "Corrupt tasks file: expected a list. Resetting to empty."]
             /\ load_tasks w = Ok [] (printed [warning] w)).
  { destruct (load_tasks_recovers w) as (_ & Hjson & Hlist).
    destruct Hbad as [Hbad|(v & Hbad & Hv')].
    - eexists. split; [left; reflexivity|]. now apply (Hjson text).
    - eexists. split; [right; left; reflexivity|]. now apply (Hlist text v). }
  destruct Hload as (warning & Hw & Hload).
  destruct (save_holds [t] (tick (printed [warning] w)) Ht) as [Hsave Hheld].
  exists warning, t, (printed ["Task added successfully (ID: 1)"]
                        (write_file (json_dumps (JArr [t])) (tick (printed [warning] w)))).
  split; [|split; [exact Hw|split; [reflexivity|split; [|split; reflexivity]]]].
  - unfold cmd_add. rewrite (bind_ok _ _ _ _ _ Hload).
    unfold lift at 1. unfold bind at 1. cbn [next_id].
    unfold bind at 1. unfold now_iso at 1.
    change (clock (printed [warning] w) (ticks (printed [warning] w)))
      with (clock w (ticks w)).
    cbn [List.app]. fold t. unfold bind. now rewrite Hsave.
  - exact (holds_file _ _ [t] eq_refl Hheld).
Qed.

Lemma add_overwrites_corrupt_file_witness :
  exists warning t w',
    cmd_add ["Buy milk"] (mkWorld (Some "{oops") sample_clock 0 []) = Ok tt w'
    /\ In warning ["Corrupt JSON in tasks file. Resetting to empty.";
                   "Corrupt tasks file: expected a list. Resetting to empty."]
    /\ w' = printed ["Task added successfully (ID: 1)"]
              (write_file (json_dumps (JArr [t]))
                 (tick (printed [warning] (mkWorld (Some "{oops") sample_clock 0 []))))
    /\ holds w' [t] /\ task_id t = Some 1%Z
    /\ str_field "description" t = Some "Buy milk".
Proof.
  apply (add_overwrites_corrupt_file "Buy milk" []
           (mkWorld (Some "{oops") sample_clock 0 []) "{oops").
  - reflexivity.
  - reflexivity.
  - left. reflexivity.
  - reflexivity.
  - reflexivity.
Defined.

(** ** Deleting twice *)

(** X6. After the delete command has removed the tasks with an id, the
    same delete command run again only reports that the id is not found
    and writes nothing. *)
Theorem delete_twice_not_found tid_arg tid rest w tasks :
  py_int tid_arg = IntOk tid -> holds w tasks -> collection tasks ->
  (exists t, In t tasks /\ task_id t = Some tid) ->
  exists w1,
    cmd_delete (tid_arg :: rest) w = Ok tt w1
    /\ cmd_delete (tid_arg :: rest) w1
       = Ok tt (printed ["Task with ID " ++ str_of_int tid ++ " not found."] w1)
    /\ file (printed ["Task with ID " ++ str_of_int tid ++ " not found."] w1) = file w1.
Proof.
  intros Hint Hh Hc Hex.
  destruct (cmd_delete_run tid_arg tid rest w tasks Hint Hh Hc) as [Hrun _].
  destruct (Hrun Hex) as [Hcmd Hheld].
  eexists. split; [exact Hcmd|]. split; [|reflexivity].
  apply (cmd_delete_run tid_arg tid rest _ (filter (fun t => negb (has_id tid t)) tasks)).
  - exact Hint.
  - exact (holds_file _ _ _ eq_refl Hheld).
  - now apply collection_filter.
  - intros u Hu Hid. apply filter_In in Hu as [_ Hu].
    apply has_id_task_id in Hid. rewrite Hid in Hu. discriminate.
Qed.

Lemma delete_twice_not_found_witness :
  exists w1,
    cmd_delete ["3"] sample_world = Ok tt w1
    /\ cmd_delete ["3"] w1
       = Ok tt (printed ["Task with ID " ++ str_of_int 3 ++ " not found."] w1)
    /\ file (printed ["Task with ID " ++ str_of_int 3 ++ " not found."] w1) = file w1.
Proof.
  apply (delete_twice_not_found "3" 3%Z [] sample_world sample_tasks).
  - reflexivity.
  - unfold holds. cbn [file sample_world]. split; vm_compute; reflexivity.
  - reflexivity.
  - eexists. split; [right; left; reflexivity | reflexivity].
Defined.

(** ** [find_task] on any list *)

(** X7. [find_task] on any loaded list: a result is the first dict whose
    id equals the given one, and it is never the empty dict (so [not task]
    holds of [None] only); [None] means that every element is a dict with
    another id or none; and the only exception is AttributeError, raised
    at the first element that is not a dict when no dict before it has the
    id. *)
Theorem find_task_first_match tid tasks :
  match find_task tasks tid with
  | Val (Some (i, d)) =>
    d <> [] /\ nth_error tasks i = Some (JObj d) /\ id_equals tid (JObj d) = true
    /\ forall j u, (j < i)%nat -> nth_error tasks j = Some u ->
                   is_dict u = true /\ id_equals tid u = false
  | Val None =>
    forall u, In u tasks -> is_dict u = true /\ id_equals tid u = false
  | Exn e =>
    e = AttributeError
    /\ exists j u, nth_error tasks j = Some u /\ is_dict u = false
                   /\ forall k u', (k < j)%nat -> nth_error tasks k = Some u' ->
                                   is_dict u' = true /\ id_equals tid u' = false
  | NoModel => False
  end.
Proof.
  induction tasks as [|t tasks IH]; [intros u []|].
  cbn [find_task].
  destruct t as [| b | n | s | items | d];
    try (cbn [py_get rbind]; split; [reflexivity|];
         exists 0%nat; eexists; split; [reflexivity|]; split; [reflexivity|];
         intros k u' Hk; lia).
  cbn [py_get rbind].
  assert (Hid : id_equals tid (JObj d)
                = py_eq_int match dict_get "id" d with
                            | Some v => v
                            | None => JNull
                            end tid).
  { cbn [id_equals]. now destruct (dict_get "id" d). }
  rewrite <- Hid. destruct (id_equals tid (JObj d)) eqn:E.
  - split; [|split; [reflexivity|split; [exact E|intros j u Hj; lia]]].
    intros ->. discriminate E.
  - destruct (find_task tasks tid) as [[[i d']|]|e|]; cbn [rbind].
    + destruct IH as (Hd & Hnth & Heq & Hfirst).
      split; [exact Hd|]. split; [exact Hnth|]. split; [exact Heq|].
      intros [|j] u Hj Hu; cbn [nth_error] in Hu.
      * injection Hu as <-. now split.
      * apply (Hfirst j u); [lia | exact Hu].
    + intros u [<-|Hu]; [now split | now apply IH].
    + destruct IH as (He & j & u & Hnth & Hu & Hbefore).
      split; [exact He|]. exists (S j), u. split; [exact Hnth|]. split; [exact Hu|].
      intros [|k] u' Hk Hu'; cbn [nth_error] in Hu'.
      * injection Hu' as <-. now split.
      * apply (Hbefore k u'); [lia | exact Hu'].
    + exact IH.
Qed.

(** ** [next_id] on dicts without an id, and on what it cannot number *)

Lemma id_number_get t n :
  id_number t = Some n ->
  exists v, py_get t "id" (JInt 0) = Val v /\ as_int v = Some n.
Proof.
  destruct t as [| | | | |d]; try discriminate. cbn [id_number py_get].
  destruct (dict_get "id" d) as [v|]; intros H; eexists; split; try reflexivity; exact H.
Qed.

Lemma max_ids_numbers tasks : forall ids cur,
  map id_number tasks = map Some ids ->
  max_ids cur tasks = Val (fold_left Z.max ids cur).
Proof.
  induction tasks as [|t tasks IH]; intros [|i ids] cur H; try discriminate H.
  - reflexivity.
  - cbn [map] in H. injection H as Ht Hr.
    destruct (id_number_get _ _ Ht) as (v & Hv & Hi).
    cbn [max_ids]. rewrite Hv. cbn [rbind]. rewrite Hi.
    rewrite (IH ids _ Hr). cbn [fold_left]. f_equal. f_equal.
    destruct (Z.gtb_spec i cur); lia.
Qed.

(** X8. [next_id] on a non-empty list of dicts whose ids are ints or bools
    or are missing: a dict without an id counts as id 0 and a bool as 0 or
    1, and the result is the maximum of these numbers plus 1 (so it is 1
    when no dict has an id). *)
Theorem next_id_counts_missing_as_zero tasks ids :
  tasks <> [] -> map id_number tasks = map Some ids ->
  exists m, In m ids /\ Forall (fun i => (i <= m)%Z) ids
            /\ next_id tasks = Val (m + 1)%Z.
Proof.
  intros Hne H.
  destruct tasks as [|t tasks]; [congruence|].
  destruct ids as [|i ids]; [discriminate H|].
  cbn [map] in H. injection H as Ht Hr.
  exists (fold_left Z.max ids i).
  destruct (fold_max_spec ids i) as [Hin Hall]. repeat split; try assumption.
  destruct (id_number_get _ _ Ht) as (v & Hv & Hi).
  cbn [next_id]. rewrite Hv. cbn [rbind]. rewrite Hi.
  now rewrite (max_ids_numbers _ _ _ Hr).
Qed.

Lemma next_id_counts_missing_as_zero_witness :
  exists m, In m [(-5)%Z; 0%Z; 1%Z] /\ Forall (fun i => (i <= m)%Z) [(-5)%Z; 0%Z; 1%Z]
            /\ next_id [JObj [("id", JInt (-5))]; JObj [("description", JStr "x")];
                        JObj [("id", JBool true)]] = Val (m + 1)%Z.
Proof.
  apply (next_id_counts_missing_as_zero
           [JObj [("id", JInt (-5))]; JObj [("description", JStr "x")];
            JObj [("id", JBool true)]] [(-5)%Z; 0%Z; 1%Z]).
  - discriminate.
  - reflexivity.
Defined.

Lemma max_ids_raises pre : forall cur ids x post e,
  map id_number pre = map Some ids ->
  (v <~ py_get x "id" (JInt 0) ;;
   match as_int v with
   | Some n => Val n
   | None => Exn TypeError
   end) = Exn e ->
  max_ids cur (pre ++ x :: post)%list = Exn e.
Proof.
  induction pre as [|t pre IH]; intros cur [|i ids] x post e H Hx; try discriminate H.
  - cbn [List.app max_ids]. destruct (py_get x "id" (JInt 0)) as [v| |]; cbn [rbind] in *;
      try exact Hx. destruct (as_int v); [discriminate Hx | exact Hx].
  - cbn [map] in H. injection H as Ht Hr.
    destruct (id_number_get _ _ Ht) as (v & Hv & Hi).
    cbn [List.app max_ids]. rewrite Hv. cbn [rbind]. rewrite Hi.
    now apply (IH _ ids).
Qed.

(** X9. [next_id] raises on what it cannot number.  After dicts with
    numeric or missing ids, an element that is not a dict raises
    AttributeError, and a dict whose id is not a number raises TypeError
    when it follows at least one such dict or is the only element. *)
Theorem next_id_raises pre ids x post :
  map id_number pre = map Some ids -> id_number x = None ->
  is_dict x = false \/ pre <> [] \/ post = [] ->
  next_id (pre ++ x :: post)%list
  = Exn (if is_dict x then TypeError else AttributeError).
Proof.
  intros H Hn Hcase.
  assert (Hx : (v <~ py_get x "id" (JInt 0) ;;
                match as_int v with
                | Some n => Val n
                | None => Exn TypeError
                end) = Exn (if is_dict x then TypeError else AttributeError)).
  { destruct x as [| | | | |d]; try reflexivity. cbn [id_number] in Hn.
    cbn [py_get rbind is_dict]. destruct (dict_get "id" d) as [v|]; [|discriminate Hn].
    now rewrite Hn. }
  destruct pre as [|t pre].
  - cbn [List.app next_id].
    destruct x as [| | | | |d]; try reflexivity.
    cbn [id_number] in Hn. cbn [py_get rbind is_dict].
    destruct (dict_get "id" d) as [v|]; [|discriminate Hn]. rewrite Hn.
    destruct Hcase as [Hc|[Hc| ->]]; [discriminate Hc | congruence | reflexivity].
  - destruct ids as [|i ids]; [discriminate H|].
    cbn [map] in H. injection H as Ht Hr.
    destruct (id_number_get _ _ Ht) as (v & Hv & Hi).
    cbn [List.app next_id]. rewrite Hv. cbn [rbind]. rewrite Hi.
    now rewrite (max_ids_raises pre i ids x post _ Hr Hx).
Qed.

Lemma next_id_raises_witness :
  next_id ([JObj [("id", JInt 1)]; JObj []] ++ JStr "oops" :: [JObj []])%list
  = Exn (if is_dict (JStr "oops") then TypeError else AttributeError).
Proof.
  apply (next_id_raises [JObj [("id", JInt 1)]; JObj []] [1%Z; 0%Z] (JStr "oops") [JObj []]).
  - reflexivity.
  - reflexivity.
  - left. reflexivity.
Defined.

(** ** What a run does to the storage file *)

Lemma same_store_refl w : same_store w w.
Proof. now repeat split. Qed.

Lemma same_store_trans w1 w2 w3 :
  same_store w1 w2 -> same_store w2 w3 -> same_store w1 w3.
Proof. unfold same_store. intros (-> & -> & ->) (-> & -> & ->). now repeat split. Qed.

Lemma same_store_emit line w : same_store w (emit (EPrint line) w).
Proof.
  unfold same_store, writes, emit. cbn [file trace clock].
  rewrite filter_app. cbn [filter is_write]. now rewrite List.app_nil_r.
Qed.

Lemma quiet_ret {A : Type} (a : A) : quiet (ret a).
Proof. intros w. apply same_store_refl. Qed.

Lemma quiet_print line : quiet (print line).
Proof. intros w. apply same_store_emit. Qed.

Lemma quiet_lift {A : Type} (r : result A) : quiet (lift r).
Proof. intros w. unfold lift. destruct r; try exact I; apply same_store_refl. Qed.

Lemma quiet_unmodelled {A : Type} : quiet (@unmodelled A).
Proof. intros w. exact I. Qed.


Lemma quiet_bind {A B : Type} (m : M A) (k : A -> M B) :
  quiet m -> (forall a, quiet (k a)) -> quiet (bind m k).
Proof.
  intros Hm Hk w. unfold bind. specialize (Hm w).
  destruct (m w) as [a w1|e w1|]; [|exact Hm|exact I].
  specialize (Hk a w1). destruct (k a w1) as [b w2|e w2|]; [| |exact I];
    eapply same_store_trans; eassumption.
Qed.

Lemma quiet_load_tasks : quiet load_tasks.
Proof.
  intros w. unfold load_tasks. destruct (file w) as [bytes|]; [|apply same_store_refl].
  destruct (valid_utf8 bytes); cbn [negb]; [|apply same_store_refl].
  destruct (json_loads bytes) as [[| | | | items|]| |]; try exact I;
    try apply same_store_refl; apply same_store_emit.
Qed.

Lemma quiet_print_lines lines : quiet (print_lines lines).
Proof.
  induction lines as [|l lines IH]; cbn [print_lines]; [apply quiet_ret|].
  apply quiet_bind; [apply quiet_print | intros _; exact IH].
Qed.

Lemma quiet_print_tasks tasks : quiet (print_tasks tasks).
Proof.
  induction tasks as [|t tasks IH]; cbn [print_tasks]; [apply quiet_ret|].
  apply quiet_bind; [apply quiet_lift|]. intros line.
  apply quiet_bind; [apply quiet_print | intros _; exact IH].
Qed.

Lemma quiet_list_tasks chosen : quiet (list_tasks chosen).
Proof.
  unfold list_tasks. apply quiet_bind; [apply quiet_load_tasks|].
  intros [|t tasks]; [apply quiet_print|].
  apply quiet_bind; [apply quiet_lift|].
  intros [|s shown]; [apply quiet_print | apply quiet_print_tasks].
Qed.

Lemma quiet_cmd_list args : quiet (cmd_list args).
Proof.
  unfold cmd_list. destruct args as [|arg args]; [apply quiet_list_tasks|].
  destruct (str_lower arg) as [lowered|]; [|apply quiet_unmodelled].
  destruct (status_filter lowered);
    first [apply quiet_list_tasks | apply quiet_print].
Qed.









(** *** Runs on text do not leave the model at the save *)


























(** A list that holds something else than dicts: the delete command
    raises at the first element, and the file is as it was. *)
Example run_on_odd_file :
  main ["task_cli.py"; "delete"; "7"] (mkWorld (Some "[7, {}]") sample_clock 0 [])
  = Raise AttributeError (mkWorld (Some "[7, {}]") sample_clock 0 []).
Proof. vm_compute. reflexivity. Qed.

(** A file whose JSON text has the escape of a lone surrogate is not
    [stored_text_ok]: the str read from it is not text, and a run that
    comes to save it is outside the model. *)
Example lone_surrogate_not_text :
  let text := "[{" ++ quoted "id" ++ ": 1, " ++ quoted "description" ++ ": "
              ++ quoted (String backslash "ud800") ++ "}]" in
  let w := mkWorld (Some text) sample_clock 0 [] in
  valid_utf8 text = true
  /\ stored_text_ok w = false
  /\ main ["task_cli.py"; "add"; "y"] w = Unmodelled.
Proof. vm_compute. repeat split. Qed.

(** X11. The list command, the help verbs and unknown verbs never
    write: whatever the storage file holds, also when it is corrupt or the
    run raises, the file, the writes and the clock are afterwards what
    they were. *)
Theorem other_verbs_read_only prog verb cmd args w :
  str_lower verb = Some cmd -> ~ In cmd writing_verbs ->
  match main (prog :: verb :: args) w with
  | Ok _ w' | Raise _ w' => same_store w w'
  | Unmodelled => True
  end.
Proof.
  intros Hl Hverb. revert w. change (quiet (main (prog :: verb :: args))).
  cbn [main]. rewrite Hl. unfold writing_verbs in Hverb.
  repeat (apply not_in_cons in Hverb as [? Hverb]).
  repeat match goal with E : String.eqb _ _ = false |- _ => rewrite E; clear E end.
  destruct (String.eqb cmd "list"); [apply quiet_cmd_list|].
  destruct (in_strs cmd ["-h"; "--help"; "help"]); [apply quiet_print_lines|].
  apply quiet_bind; [apply quiet_print | intros _; apply quiet_print_lines].
Qed.

Lemma other_verbs_read_only_witness :
  match main ("task_cli.py" :: "LIST" :: ["done"])
          (mkWorld (Some "{oops") sample_clock 0 []) with
  | Ok _ w' | Raise _ w' => same_store (mkWorld (Some "{oops") sample_clock 0 []) w'
  | Unmodelled => True
  end.
Proof.
  apply (other_verbs_read_only "task_cli.py" "LIST" "list" ["done"]
           (mkWorld (Some "{oops") sample_clock 0 [])).
  - reflexivity.
  - intros H. repeat (destruct H as [H|H]; [discriminate H|]). exact H.
Defined.

(** ** The verb in any letter case *)

Lemma lower_char_idem c : lower_char (lower_char c) = lower_char c.
Proof. destruct c as [[] [] [] [] [] [] [] []]; reflexivity. Qed.

Lemma lower_char_ascii c :
  (byte c <? 128)%N = true -> (byte (lower_char c) <? 128)%N = true.
Proof. destruct c as [[] [] [] [] [] [] [] []]; intros H; try discriminate H; reflexivity. Qed.

Lemma str_lower_idem s lowered : str_lower s = Some lowered -> str_lower lowered = Some lowered.
Proof.
  unfold str_lower. destruct (is_ascii s) eqn:E; [|discriminate]. intros [= <-].
  assert (Ha : is_ascii (str_map lower_char s) = true).
  { unfold is_ascii in *. induction s as [|c s IH]; [reflexivity|].
    cbn [str_map str_forall] in *. apply andb_true_iff in E as [Hc Hs].
    now rewrite (lower_char_ascii c Hc), (IH Hs). }
  rewrite Ha. f_equal. clear. induction s as [|c s IH]; [reflexivity|].
  cbn [str_map]. now rewrite lower_char_idem, IH.
Qed.

(** X12. The verb is read without regard to letter case: a run with the
    verb written in any mix of cases is the run with the verb in lower
    case. *)
Theorem verb_case_insensitive prog verb cmd args w :
  str_lower verb = Some cmd ->
  main (prog :: verb :: args) w = main (prog :: cmd :: args) w.
Proof.
  intros H. cbn [main]. now rewrite H, (str_lower_idem verb cmd H).
Qed.

Lemma verb_case_insensitive_witness :
  main ["task_cli.py"; "Mark-DONE"; "1"] sample_world
  = main ["task_cli.py"; "mark-done"; "1"] sample_world.
Proof.
  apply (verb_case_insensitive "task_cli.py" "Mark-DONE" "mark-done" ["1"] sample_world).
  reflexivity.
Defined.

(** ** Listing a task that lacks a field *)

Lemma print_tasks_raises pre : forall t post e w,
  collection pre -> fmt t = Exn e ->
  print_tasks (pre ++ t :: post)%list w = Raise e (printed (map task_line pre) w).
Proof.
  induction pre as [|u pre IH]; intros t post e w Hc Hf.
  - cbn [List.app print_tasks map]. unfold bind, lift. rewrite Hf. now rewrite printed_nil.
  - apply collection_cons in Hc as [Hu Hc].
    cbn [List.app print_tasks map]. unfold bind at 1. unfold lift. rewrite (fmt_task u Hu).
    unfold bind at 1. unfold print. rewrite (IH t post e _ Hc Hf).
    now rewrite printed_cons.
Qed.

Lemma fmt_missing_key d :
  (exists k, In k fmt_keys /\ dict_get k d = None) ->
  (forall k v, dict_get k d = Some v -> exists s, py_str v = Val s) ->
  fmt (JObj d) = Exn KeyError.
Proof.
  intros (k & Hk & Hnone) Hprint. unfold fmt, field, subscript.
  destruct (dict_get "id" d) as [v1|] eqn:E1; [|reflexivity].
  cbn [rbind]. destruct (Hprint _ _ E1) as (s1 & P1). rewrite P1. cbn [rbind].
  destruct (dict_get "status" d) as [v2|] eqn:E2; [|reflexivity].
  cbn [rbind]. destruct (Hprint _ _ E2) as (s2 & P2). rewrite P2. cbn [rbind].
  destruct (dict_get "description" d) as [v3|] eqn:E3; [|reflexivity].
  cbn [rbind]. destruct (Hprint _ _ E3) as (s3 & P3). rewrite P3. cbn [rbind].
  destruct (dict_get "createdAt" d) as [v4|] eqn:E4; [|reflexivity].
  cbn [rbind]. destruct (Hprint _ _ E4) as (s4 & P4). rewrite P4. cbn [rbind].
  destruct (dict_get "updatedAt" d) as [v5|] eqn:E5; [|reflexivity].
  exfalso. unfold fmt_keys in Hk.
  destruct Hk as [<-|[<-|[<-|[<-|[<-|[]]]]]]; congruence.
Qed.

(** X13. The list command without a filter reads the five fields of every
    task by subscript: when a stored dict lacks one of them (its other
    values being strs, ints, bools or null), the run prints the lines of
    the tasks before it and then raises KeyError; it prints neither the
    later tasks nor a message. *)
Theorem list_raises_on_missing_field pre d post w :
  holds w (pre ++ JObj d :: post)%list -> collection pre ->
  (exists k, In k fmt_keys /\ dict_get k d = None) ->
  (forall k v, dict_get k d = Some v -> exists s, py_str v = Val s) ->
  cmd_list [] w = Raise KeyError (printed (map task_line pre) w).
Proof.
  intros Hh Hc Hmiss Hprint. cbn [cmd_list]. unfold list_tasks.
  rewrite (bind_ok _ _ _ _ _ (load_holds w _ Hh)).
  destruct (pre ++ JObj d :: post)%list as [|t tasks] eqn:E.
  { now destruct pre. }
  unfold bind, lift. rewrite <- E.
  apply print_tasks_raises; [exact Hc | now apply fmt_missing_key].
Qed.

Lemma list_raises_on_missing_field_witness :
  cmd_list []
    (mkWorld (Some (json_dumps (JArr (sample_tasks ++ JObj [("id", JInt 9)] :: [])%list)))
       sample_clock 0 [])
  = Raise KeyError
      (printed (map task_line sample_tasks)
         (mkWorld
            (Some (json_dumps (JArr (sample_tasks ++ JObj [("id", JInt 9)] :: [])%list)))
            sample_clock 0 [])).
Proof.
  apply (list_raises_on_missing_field sample_tasks [("id", JInt 9)] []).
  - unfold holds. cbn [file]. split; vm_compute; reflexivity.
  - reflexivity.
  - exists "status". split; [right; left; reflexivity | reflexivity].
  - intros k v H. cbn [dict_get] in H.
    destruct (String.eqb "id" k); [|discriminate H]. injection H as <-.
    eexists. reflexivity.
Defined.

(** ** Adding to the empty collection *)

Lemma fold_max_seq n : forall a b,
  (Z.of_nat a - 1 <= b)%Z ->
  fold_left Z.max (map Z.of_nat (seq a n)) b = Z.max b (Z.of_nat (a + n) - 1).
Proof.
  induction n as [|n IH]; intros a b Hb; cbn [seq map fold_left].
  - rewrite Nat.add_0_r. lia.
  - rewrite IH by lia. lia.
Qed.

Lemma next_id_after_seq tasks k :
  map task_id tasks = map Some (map Z.of_nat (seq 1 k)) ->
  next_id tasks = Val (Z.of_nat (S k)).
Proof.
  intros H. destruct k as [|k].
  - destruct tasks; [reflexivity | discriminate H].
  - destruct tasks as [|t tasks]; [discriminate H|].
    cbn [seq map] in H. injection H as Ht Hr.
    cbn [next_id]. rewrite (task_id_get _ _ Ht). cbn [rbind as_int].
    rewrite (max_ids_spec _ _ _ Hr), fold_max_seq by lia. cbn [rbind]. f_equal. lia.
Qed.

(** The add command on a collection, for the id that [next_id] returns. *)
Lemma cmd_add_next desc rest w tasks n :
  valid_utf8 desc = true -> valid_utf8 (clock w (ticks w)) = true ->
  holds w tasks -> collection tasks -> next_id tasks = Val n ->
  let t := JObj [("id", JInt n); ("description", JStr desc); ("status", JStr "todo");
                 ("createdAt", JStr (clock w (ticks w)));
                 ("updatedAt", JStr (clock w (ticks w)))] in
  let w' := printed ["Task added successfully (ID: " ++ str_of_int n ++ ")"]
              (write_file (json_dumps (JArr (tasks ++ [t])%list)) (tick w)) in
  cmd_add (desc :: rest) w = Ok tt w'
  /\ holds w' (tasks ++ [t])%list /\ collection (tasks ++ [t])%list.
Proof.
  intros Hd Hc Hh Hcol Hn t w'.
  assert (Ht : is_task t = true).
  { unfold is_task, well_formed, t. cbn. now rewrite Hd, Hc. }
  assert (Hcol' : collection (tasks ++ [t])%list).
  { apply collection_app. split; [assumption|]. unfold collection. cbn [forallb].
    now rewrite Ht. }
  destruct (save_holds _ (tick w) (collection_well_formed _ Hcol')) as [Hsave Hheld].
  split; [|split]; try assumption.
  unfold cmd_add. rewrite (bind_ok _ _ _ _ _ (load_holds w tasks Hh)).
  unfold lift at 1. unfold bind at 1. rewrite Hn.
  unfold bind at 1. unfold now_iso at 1. fold t.
  unfold bind. now rewrite Hsave.
Qed.

Lemma adds_from descs : forall w tasks k,
  holds w tasks -> collection tasks -> clock_ok w ->
  map task_id tasks = map Some (map Z.of_nat (seq 1 k)) ->
  forallb valid_utf8 descs = true ->
  exists w' added,
    run_ops (map Add descs) w = Ok tt w'
    /\ holds w' (tasks ++ added)%list /\ collection (tasks ++ added)%list
    /\ map task_id added
       = map Some (map Z.of_nat (seq (S k) (List.length descs)))
    /\ map (str_field "description") added = map Some descs.
Proof.
  induction descs as [|desc descs IH]; intros w tasks k Hh Hc Hclk Hids Hok.
  - exists w, []. rewrite List.app_nil_r. now repeat split.
  - cbn [forallb] in Hok. apply andb_true_iff in Hok as [Hd Hok].
    destruct (cmd_add_next desc [] w tasks _ Hd (Hclk _) Hh Hc (next_id_after_seq _ _ Hids))
      as (Hrun & Hh' & Hc').
    cbv zeta in Hrun, Hh', Hc'.
    cbn [map run_ops].
    change (main (argv_of (Add desc))) with (cmd_add [desc]).
    rewrite (bind_ok _ _ _ _ _ Hrun).
    match type of Hh' with holds ?w1 (tasks ++ [?t])%list =>
      destruct (IH w1 (tasks ++ [t])%list (S k) Hh' Hc' Hclk) as (w' & added & Hr & Hha & Hca & Hia & Hda);
        [ rewrite map_app, Hids, seq_S, !map_app; reflexivity | exact Hok | ];
      exists w', (t :: added)
    end.
    rewrite <- List.app_assoc in Hha, Hca. cbn [List.app] in Hha, Hca.
    split; [exact Hr|]. split; [exact Hha|]. split; [exact Hca|].
    cbn [map List.length seq]. rewrite Hia, Hda. split; reflexivity.
Qed.

(** X14. Ids are assigned incrementally: starting from the empty
    collection, a run of add commands alone stores one task per command, in
    the order of the commands, with the ids 1, 2, 3, ... and the
    descriptions given. *)
Theorem adds_number_from_one descs w0 :
  holds w0 [] -> clock_ok w0 -> forallb valid_utf8 descs = true ->
  exists w tasks,
    run_ops (map Add descs) w0 = Ok tt w /\ holds w tasks
    /\ map task_id tasks = map Some (map Z.of_nat (seq 1 (List.length descs)))
    /\ map (str_field "description") tasks = map Some descs.
Proof.
  intros Hh Hclk Hok.
  destruct (adds_from descs w0 [] 0 Hh eq_refl Hclk eq_refl Hok)
    as (w & added & Hr & Hha & _ & Hia & Hda).
  exists w, added. now repeat split.
Qed.

Lemma adds_number_from_one_witness :
  exists w tasks,
    run_ops (map Add ["a"; "b"; "c"]) empty_world = Ok tt w /\ holds w tasks
    /\ map task_id tasks
       = map Some (map Z.of_nat (seq 1 (List.length ["a"; "b"; "c"])))
    /\ map (str_field "description") tasks = map Some ["a"; "b"; "c"].
Proof.
  apply (adds_number_from_one ["a"; "b"; "c"] empty_world).
  - reflexivity.
  - exact sample_clock_ok.
  - reflexivity.
Defined.

(** ** The update command through the dispatcher *)

(** The update command on a collection in which [find_task] finds the
    task at position [i]. *)
Lemma cmd_update_run tid_arg tid desc rest w tasks i d :
  py_int tid_arg = IntOk tid -> valid_utf8 desc = true ->
  valid_utf8 (clock w (ticks w)) = true ->
  holds w tasks -> collection tasks ->
  find_task tasks tid = Val (Some (i, d)) -> d <> [] ->
  nth_error tasks i = Some (JObj d) ->
  let t' := JObj (dict_set "updatedAt" (JStr (clock w (ticks w)))
                    (dict_set "description" (JStr desc) d)) in
  let tasks' := list_set i t' tasks in
  let w' := printed ["Task " ++ str_of_int tid ++ " updated successfully."]
              (write_file (json_dumps (JArr tasks')) (tick w)) in
  cmd_update (tid_arg :: desc :: rest) w = Ok tt w'
  /\ holds w' tasks' /\ collection tasks'.
Proof.
  intros Hint Hdesc Hclock Hh Hc Hf Hd Hnth t' tasks' w'.
  assert (Htask : is_task (JObj d) = true).
  { unfold collection in Hc. rewrite forallb_forall in Hc. apply Hc.
    eapply nth_error_In. exact Hnth. }
  assert (Htask' : is_task t' = true).
  { unfold t'. apply is_task_set; try assumption; try reflexivity; try discriminate.
    apply is_task_set; try assumption; try reflexivity; discriminate. }
  assert (Hc' : collection tasks') by (now apply list_set_collection).
  destruct (save_holds tasks' (tick w) (collection_well_formed _ Hc')) as [Hsave Hheld].
  split; [|split]; try assumption.
  unfold cmd_update. rewrite Hint.
  rewrite (bind_ok _ _ _ _ _ (load_holds w tasks Hh)).
  unfold lift at 1. unfold bind at 1. rewrite Hf.
  destruct d as [|kv d]; [congruence|].
  unfold bind at 1. unfold now_iso at 1.
  unfold bind. fold t'. fold tasks'. now rewrite Hsave.
Qed.

(** X15. The update verb, in any letter case, followed by an id and one
    or more words: the words joined by single spaces become the
    description of the first task with that id (no task before it has the
    id); every other task is stored unchanged at its position, and the
    number of stored tasks does not change. *)
Theorem update_joins_words prog verb tid_arg tid words w tasks :
  str_lower verb = Some "update" -> words <> [] ->
  py_int tid_arg = IntOk tid -> valid_utf8 (join " " words) = true ->
  valid_utf8 (clock w (ticks w)) = true ->
  holds w tasks -> collection tasks ->
  (exists t, In t tasks /\ task_id t = Some tid) ->
  exists i t t' w',
    main (prog :: verb :: tid_arg :: words) w = Ok tt w'
    /\ holds w' (list_set i t' tasks)
    /\ nth_error tasks i = Some t /\ task_id t = Some tid
    /\ (forall j u, (j < i)%nat -> nth_error tasks j = Some u -> task_id u <> Some tid)
    /\ nth_error (list_set i t' tasks) i = Some t'
    /\ task_id t' = Some tid
    /\ str_field "description" t' = Some (join " " words)
    /\ (forall j, j <> i -> nth_error (list_set i t' tasks) j = nth_error tasks j)
    /\ List.length (list_set i t' tasks) = List.length tasks.
Proof.
  intros Hv Hwords Hint Hdesc Hclock Hh Hc (t0 & Hin0 & Htid0).
  destruct (find_task_collection tid tasks Hc)
    as [(i & d & Hf & Hd & Hnth & Htid & Hfirst)|[_ Hnone]]; [|now elim (Hnone t0 Hin0)].
  destruct (cmd_update_run tid_arg tid (join " " words) [] w tasks i d
              Hint Hdesc Hclock Hh Hc Hf Hd Hnth) as (Hrun & Hheld & _).
  cbv zeta in Hrun, Hheld.
  exists i, (JObj d). eexists _, _.
  split; [|split; [exact Hheld|]].
  - cbn [main]. rewrite Hv. cbn [String.eqb Ascii.eqb Bool.eqb].
    destruct words as [|a words]; [congruence | exact Hrun].
  - split; [exact Hnth|]. split; [exact Htid|]. split; [exact Hfirst|].
    split; [eapply list_set_same; exact Hnth|].
    split; [rewrite !task_id_set by discriminate; exact Htid|].
    split; [now rewrite !str_field_set|].
    split; [intros j Hj; now apply list_set_other | apply list_set_length].
Qed.

Lemma update_joins_words_witness :
  exists i t t' w',
    main ("task_cli.py" :: "Update" :: "3" :: ["Call"; "Bob"; "today"]) sample_world
    = Ok tt w'
    /\ holds w' (list_set i t' sample_tasks)
    /\ nth_error sample_tasks i = Some t /\ task_id t = Some 3%Z
    /\ (forall j u, (j < i)%nat -> nth_error sample_tasks j = Some u ->
                    task_id u <> Some 3%Z)
    /\ nth_error (list_set i t' sample_tasks) i = Some t'
    /\ task_id t' = Some 3%Z
    /\ str_field "description" t' = Some (join " " ["Call"; "Bob"; "today"])
    /\ (forall j, j <> i -> nth_error (list_set i t' sample_tasks) j
                            = nth_error sample_tasks j)
    /\ List.length (list_set i t' sample_tasks) = List.length sample_tasks.
Proof.
  apply (update_joins_words "task_cli.py" "Update" "3" 3%Z ["Call"; "Bob"; "today"]
           sample_world sample_tasks).
  - reflexivity.
  - discriminate.
  - reflexivity.
  - reflexivity.
  - reflexivity.
  - unfold holds. cbn [file sample_world]. split; vm_compute; reflexivity.
  - reflexivity.
  - eexists. split; [right; left; reflexivity | reflexivity].
Defined.
